(** * go-small-jsonpath: a shallow embedding of jsonpath/jsonpath.go

    The path compiler ([Compile], [compileCore] and the scanner primitives
    [skipSpaces], [parseQuotedName], [parseBareName], [parseNumber],
    [parseHex]) and the query evaluator ([Query], [QueryAsStringOrZero],
    [QueryAsNumberOrZero]).

    Modelling choices:
    - a Go [rune] is a [Z]; the [[]rune] the compiler scans is a [list rune]
      indexed by [nat] positions, as the Go code indexes it;
    - a Go [string] is modelled by the sequence of its code points
      ([gostring]); [string(buf)] on a rune slice replaces invalid code
      points with U+FFFD ([string_of_runes]);
    - Go [int] is 64 bits wide, its wrap-around is written out ([wrap_int]);
    - the dynamic [interface{}] values the evaluator walks are [value];
      a JSON object is the association list of its (distinct) keys;
    - errors carry their kind only; positions in messages are dropped;
    - a Go runtime panic is an explicit result ([CompilePanic], [QPanic],
      [Panics]);
    - the [for] loops that jump forward by a variable amount are written
      with a fuel argument; the initial fuel is one more than the number of
      positions left, and every iteration advances the position by at least
      one, so the fuel never runs out on a call from the code. *)

From Stdlib Require Import ZArith List Bool Lia String Ascii PrimFloat.
Import ListNotations.

#[local] Set Warnings "-register-all".

Open Scope Z_scope.

(** ** Runes and strings *)

Definition rune := Z.

Definition gostring := list rune.

(** Code points of an ASCII Rocq string (for writing inputs). *)
Definition runes (s : string) : list rune :=
  map (fun c => Z.of_nat (nat_of_ascii c)) (list_ascii_of_string s).

(** The double quote, which a Rocq string literal cannot hold here. *)
Definition DQ : list rune := [34].

Fixpoint gostring_eqb (a b : gostring) : bool :=
  match a, b with
  | [], [] => true
  | x :: a', y :: b' => (x =? y) && gostring_eqb a' b'
  | _, _ => false
  end.

(** [unicode.MaxLatin1] *)
Definition MaxLatin1 : Z := 255.

(** [unicode.IsSpace]: the Latin-1 switch, and the [White_Space] table
    (U+1680, U+2000..U+200A, U+2028, U+2029, U+202F, U+205F, U+3000) above it.
    [uint32(r)] makes a negative rune larger than [MaxLatin1]. *)
Definition IsSpace (r : rune) : bool :=
  if (0 <=? r) && (r <=? MaxLatin1) then
    (r =? 9) || (r =? 10) || (r =? 11) || (r =? 12) || (r =? 13)
    || (r =? 32) || (r =? 133) || (r =? 160)
  else
    (r =? 5760) || ((8192 <=? r) && (r <=? 8202)) || (r =? 8232)
    || (r =? 8233) || (r =? 8239) || (r =? 8287) || (r =? 12288).

(** [unicode.IsControl]: the Latin-1 C0 and C1 ranges only. *)
Definition IsControl (r : rune) : bool :=
  (0 <=? r) && (r <=? MaxLatin1) && ((r <=? 31) || ((127 <=? r) && (r <=? 159))).

(** [utf8.RuneError] and [utf8.ValidRune] *)
Definition RuneError : rune := 65533.

Definition ValidRune (r : rune) : bool :=
  ((0 <=? r) && (r <? 55296)) || ((57343 <? r) && (r <=? 1114111)).

(** [string(buf)] for [buf : []rune]. *)
Definition string_of_runes (buf : list rune) : gostring :=
  map (fun r => if ValidRune r then r else RuneError) buf.

(** [src[a:b]] (every use in the code is within bounds). *)
Definition slice (src : list rune) (a b : nat) : list rune :=
  firstn (b - a) (skipn a src).

(** Conversions [rune(v)] (to int32) and 64-bit [int] arithmetic. *)
Definition to_int32 (v : Z) : Z := ((v + 2 ^ 31) mod 2 ^ 32) - 2 ^ 31.

Definition wrap_int (v : Z) : Z := ((v + 2 ^ 63) mod 2 ^ 64) - 2 ^ 63.

(** ** strconv.ParseInt *)

(** Digit value as [strconv] reads it: 0-9, then letters in either case. *)
Definition digitVal (c : rune) : option Z :=
  if (48 <=? c) && (c <=? 57) then Some (c - 48)
  else if (97 <=? c) && (c <=? 122) then Some (c - 97 + 10)
  else if (65 <=? c) && (c <=? 90) then Some (c - 65 + 10)
  else None.

Fixpoint parseUintDigits (base acc : Z) (s : list rune) : option Z :=
  match s with
  | [] => Some acc
  | c :: s' =>
      match digitVal c with
      | Some d => if d <? base then parseUintDigits base (acc * base + d) s' else None
      | None => None
      end
  end.

(** [strconv.ParseUint(s, base, 64)] for a base other than 0 (no prefix,
    no underscores): a syntax error or a range error is [None]. *)
Definition ParseUint (s : gostring) (base : Z) : option Z :=
  match s with
  | [] => None
  | _ =>
      match parseUintDigits base 0 s with
      | Some u => if u <? 2 ^ 64 then Some u else None
      | None => None
      end
  end.

(** [strconv.ParseInt(s, base, 64)]: an optional sign, then [ParseUint],
    then the int64 range check. *)
Definition ParseInt (s : gostring) (base : Z) : option Z :=
  match s with
  | [] => None
  | c :: t =>
      let '(neg, body) :=
        if c =? 43 then (false, t) else if c =? 45 then (true, t) else (false, s) in
      match ParseUint body base with
      | None => None
      | Some un =>
          let cutoff := 2 ^ 63 in
          if negb neg && (cutoff <=? un) then None
          else if neg && (cutoff <? un) then None
          else Some (if neg then - un else un)
      end
  end.

(** ** Scanner primitives *)

(** [skipSpaces]: the loop walks [src[start:]]; its error is always nil. *)
Fixpoint skipSpaces_loop (rest : list rune) (i : nat) : option nat :=
  match rest with
  | [] => None
  | ch :: rest' =>
      if negb (IsSpace ch) && negb (IsControl ch) then Some i
      else skipSpaces_loop rest' (S i)
  end.

Definition skipSpaces (src : list rune) (start : nat) : nat :=
  match skipSpaces_loop (skipn start src) start with
  | Some i => i
  | None => List.length src
  end.

(** The punctuation ranges that end a bare name. *)
Definition isNamePunct (ch : rune) : bool :=
  ((33 <=? ch) && (ch <=? 47)) || ((58 <=? ch) && (ch <=? 64))
  || ((91 <=? ch) && (ch <=? 96)) || ((123 <=? ch) && (ch <=? 126)).

Fixpoint parseBareName_loop (rest : list rune) (i : nat) (buf : list rune)
  : list rune * nat :=
  match rest with
  | [] => (buf, i)
  | ch :: rest' =>
      if IsSpace ch || IsControl ch then (buf, i)
      else if isNamePunct ch then (buf, i)
      else parseBareName_loop rest' (S i) (buf ++ [ch])
  end.

Definition parseBareName (src : list rune) (start : nat) : option (gostring * nat) :=
  let '(buf, i) := parseBareName_loop (skipn start src) start [] in
  match buf with
  | [] => None
  | _ => Some (string_of_runes buf, i)
  end.

Definition isDecDigit (ch : rune) : bool := (48 <=? ch) && (ch <=? 57).

(** [parseNumber]: note the test [i == 0] on the absolute position. *)
Fixpoint parseNumber_loop (rest : list rune) (i : nat) : nat :=
  match rest with
  | [] => i
  | ch :: rest' =>
      if Nat.eqb i 0 && (ch =? 45) then parseNumber_loop rest' (S i)
      else if isDecDigit ch then parseNumber_loop rest' (S i)
      else i
  end.

Definition parseNumber (src : list rune) (start : nat) : option nat :=
  let i := parseNumber_loop (skipn start src) start in
  if Nat.eqb i start then None else Some i.

Definition isHexDigit (ch : rune) : bool :=
  ((48 <=? ch) && (ch <=? 57)) || ((65 <=? ch) && (ch <=? 70))
  || ((97 <=? ch) && (ch <=? 102)).

Fixpoint parseHex_loop (rest : list rune) (i : nat) : nat :=
  match rest with
  | [] => i
  | ch :: rest' => if isHexDigit ch then parseHex_loop rest' (S i) else i
  end.

Definition parseHex (src : list rune) (start : nat) : option nat :=
  let i := parseHex_loop (skipn start src) start in
  if Nat.eqb i start then None else Some i.

(** [parseQuotedName]: every error return is [None] (the caller only tests
    [err != nil]).  Escape introducers outside the inner [switch] match no
    case: nothing is appended and [i] is not advanced there. *)
Fixpoint parseQuotedName_loop (fuel : nat) (src : list rune) (cc : rune)
  (i : nat) (buf : list rune) : option (gostring * nat) :=
  match fuel with
  | O => None
  | S fuel' =>
    let length := List.length src in
    if Nat.ltb i length then
      let ch := nth i src 0 in
      if ch =? cc then Some (string_of_runes buf, (i + 1)%nat)
      else if ch =? 92 then
        if Nat.eqb (i + 1) length then None else
        let c1 := nth (i + 1) src 0 in
        if (c1 =? 92) || (c1 =? 34) || (c1 =? 39) || (c1 =? 96) then
          parseQuotedName_loop fuel' src cc (i + 1 + 1) (buf ++ [c1])
        else if (c1 =? 110) || (c1 =? 78) then
          parseQuotedName_loop fuel' src cc (i + 1 + 1) (buf ++ [10])
        else if (c1 =? 114) || (c1 =? 82) then
          parseQuotedName_loop fuel' src cc (i + 1 + 1) (buf ++ [13])
        else if (c1 =? 118) || (c1 =? 86) then
          parseQuotedName_loop fuel' src cc (i + 1 + 1) (buf ++ [11])
        else if (c1 =? 116) || (c1 =? 84) then
          parseQuotedName_loop fuel' src cc (i + 1 + 1) (buf ++ [9])
        else if (c1 =? 98) || (c1 =? 66) then
          parseQuotedName_loop fuel' src cc (i + 1 + 1) (buf ++ [8])
        else if (c1 =? 102) || (c1 =? 70) then
          parseQuotedName_loop fuel' src cc (i + 1 + 1) (buf ++ [12])
        else if (c1 =? 120) || (c1 =? 88) then
          (* \xHH *)
          if Nat.leb length (i + 3) then None else
          match ParseInt (string_of_runes (slice src (i + 2) (i + 4))) 16 with
          | None => None
          | Some v => parseQuotedName_loop fuel' src cc (i + 3 + 1) (buf ++ [to_int32 v])
          end
        else if (c1 =? 117) || (c1 =? 85) then
          if Nat.leb length (i + 2) then None else
          if nth (i + 2) src 0 =? 123 then
            (* \u{H..H} *)
            match parseHex src (i + 3) with
            | None => None
            | Some end_ =>
                if Nat.ltb (i + 9) end_ then None else
                match ParseInt (string_of_runes (slice src (i + 3) end_)) 16 with
                | None => None
                | Some v =>
                    let buf' := buf ++ [to_int32 v] in
                    if Nat.leb length end_ then None
                    else if negb (nth end_ src 0 =? 125) then None
                    else parseQuotedName_loop fuel' src cc (end_ + 1) buf'
                end
            end
          else
            (* \uHHHH *)
            if Nat.leb length (i + 5) then None else
            match parseHex src (i + 2) with
            | None => None
            | Some end_ =>
                if negb (Nat.eqb end_ (i + 6)) then None else
                match ParseInt (string_of_runes (slice src (i + 2) end_)) 16 with
                | None => None
                | Some v =>
                    parseQuotedName_loop fuel' src cc (end_ - 1 + 1) (buf ++ [to_int32 v])
                end
            end
        else
          parseQuotedName_loop fuel' src cc (i + 1) buf
      else parseQuotedName_loop fuel' src cc (i + 1) (buf ++ [ch])
    else None
  end.

Definition parseQuotedName (src : list rune) (cc : rune) (start : nat)
  : option (gostring * nat) :=
  parseQuotedName_loop (S (List.length src - start)) src cc start [].

(** ** The path compiler *)

Inductive astType := astType_NameIndexer | astType_NumberIndexer | astType_Function.

(** [ast]: the fields a step does not set keep Go's zero values. *)
Record ast := mkAst { typ : astType; name : gostring; index : Z }.

Definition nameIndexer (n : gostring) : ast := mkAst astType_NameIndexer n 0.
Definition numberIndexer (k : Z) : ast := mkAst astType_NumberIndexer [] k.
Definition functionAst (n : gostring) : ast := mkAst astType_Function n 0.

Record CompiledJSONPath := mkCompiled { asts : list ast }.

(** The [fmt.Errorf] messages of [compileCore], by kind. *)
Inductive compileError :=
| CE_NotStartsWithRoot        (* Path should be starts with '$' *)
| CE_TermInBracket            (* Unexpected termination in the '[' bracket *)
| CE_BadNumber                (* Bad number expression *)
| CE_IntegerParse             (* Integer cannot be parsed *)
| CE_BadQuotedName            (* Bad quoted name expression *)
| CE_BracketNotClosed         (* '[' bracket is not closed *)
| CE_TermAfterDot             (* Unexpected termination after '.' *)
| CE_BadFunctionName          (* Bad function name expression *)
| CE_TermInParen              (* Unexpected termination in the '(' parenthesis *)
| CE_ParenNotClosed           (* '(' parenthesis is not closed *)
| CE_BadName                  (* Bad name expression *)
| CE_UnexpectedChar           (* Unexpected character appeared *)
| CE_OutOfFuel.               (* not in the code: the fuel of the model ran out *)

Inductive compileResult :=
| CompileOk (p : CompiledJSONPath)
| CompileErr (e : compileError)
| CompilePanic.

(** The body of the [for i := 1; i < length; i++] loop of [compileCore].
    Where the code sets [i = end - 1] before the [i++], the next position is
    written [end - 1 + 1]; where it sets [i = end], it is [end + 1].  The
    [err != nil] tests after [skipSpaces] are dropped: that error is always
    nil. *)
Fixpoint compileCore_loop (fuel : nat) (src : list rune) (i : nat) (acc : list ast)
  : compileResult :=
  match fuel with
  | O => CompileErr CE_OutOfFuel
  | S fuel' =>
    let length := List.length src in
    if Nat.ltb i length then
      let ch := nth i src 0 in
      if IsSpace ch || IsControl ch then
        let end_ := skipSpaces src (i + 1) in
        compileCore_loop fuel' src (end_ - 1 + 1) acc
      else if ch =? 91 then
        (* '[': number indexer / name indexer *)
        let end_ := skipSpaces src (i + 1) in
        if Nat.eqb end_ length then CompileErr CE_TermInBracket else
        let start := end_ in
        let c := nth start src 0 in
        let operand :=
          if isDecDigit c || (c =? 45) then
            match parseNumber src start with
            | None => inr CE_BadNumber
            | Some end2 =>
                match ParseInt (string_of_runes (slice src start end2)) 10 with
                | None => inr CE_IntegerParse
                | Some num => inl (numberIndexer num, end2)
                end
            end
          else if (c =? 39) || (c =? 34) then
            match parseQuotedName src c (start + 1) with
            | None => inr CE_BadQuotedName
            | Some (nm, end2) => inl (nameIndexer nm, end2)
            end
          else inr CE_BadQuotedName in
        match operand with
        | inr e => CompileErr e
        | inl (a, end2) =>
            let end3 := skipSpaces src end2 in
            if Nat.eqb end3 length then CompileErr CE_TermInBracket
            else if negb (nth end3 src 0 =? 93) then CompileErr CE_BracketNotClosed
            else compileCore_loop fuel' src (end3 + 1) (acc ++ [a])
        end
      else if ch =? 46 then
        (* '.' *)
        let end_ := skipSpaces src (i + 1) in
        if Nat.eqb end_ length then CompileErr CE_TermAfterDot else
        let start := end_ in
        if nth start src 0 =? 40 then
          (* '(' : function *)
          let start2 := skipSpaces src (start + 1) in
          match parseBareName src start2 with
          | None => CompileErr CE_BadFunctionName
          | Some (nm, end2) =>
              let end3 := skipSpaces src end2 in
              if Nat.eqb end3 length then CompileErr CE_TermInParen
              else if negb (nth end3 src 0 =? 41) then CompileErr CE_ParenNotClosed
              else compileCore_loop fuel' src (end3 + 1) (acc ++ [functionAst nm])
          end
        else
          (* bare name *)
          match parseBareName src start with
          | None => CompileErr CE_BadName
          | Some (nm, end2) =>
              let end3 := skipSpaces src end2 in
              compileCore_loop fuel' src (end3 - 1 + 1) (acc ++ [nameIndexer nm])
          end
      else CompileErr CE_UnexpectedChar
    else CompileOk (mkCompiled acc)
  end.

(** [compileCore]: [src[0]] on an empty slice is a runtime panic. *)
Definition compileCore (src : list rune) (root : rune) : compileResult :=
  match src with
  | [] => CompilePanic
  | c0 :: _ =>
      if negb (c0 =? root) then CompileErr CE_NotStartsWithRoot
      else compileCore_loop (List.length src) src 1 []
  end.

(** [Compile(path)], the path given as its [[]rune] decoding. *)
Definition Compile (path : list rune) : compileResult := compileCore path 36.

(** ** The query evaluator *)

Inductive JSONValueType :=
| Type_Invalid | Type_Null | Type_Number | Type_String | Type_Object | Type_Array.

(** The dynamic values held by an [interface{}] in the decoded tree:
    [nil], [float64], [string], [bool], [map[string]interface{}],
    [[]interface{}], and the [int] that [(length)] produces. *)
Inductive value :=
| VNil
| VFloat64 (f : float)
| VString (s : gostring)
| VBool (b : bool)
| VMap (kvs : list (gostring * value))
| VSlice (xs : list value)
| VInt (n : Z).

Record parsedJSON := mkParsed { pj_typ : JSONValueType; pj_value : value }.

Fixpoint lookup (k : gostring) (kvs : list (gostring * value)) : option value :=
  match kvs with
  | [] => None
  | (k', v) :: kvs' => if gostring_eqb k k' then Some v else lookup k kvs'
  end.

Inductive queryError :=
| QE_NotRead                  (* JSON is not read *)
| QE_NilReferenced            (* Nil referenced *)
| QE_PropertyDoesNotExist     (* Property ... does not exist in the object *)
| QE_ObjectByNumber           (* Object cannot be accessed by number *)
| QE_ObjectByFunction         (* Object cannot be accessed by function *)
| QE_ArrayByName              (* Array cannot be accessed by name *)
| QE_IndexOutOfRange          (* Index out of range *)
| QE_UndefinedFunction        (* Undefined function name *)
| QE_UnexpectedDataType.      (* Unexpected data type appeared *)

Inductive queryResult :=
| QOk (v : value)
| QErr (e : queryError)
| QPanic.

(** One iteration of the [for i, a := range p.asts] loop of [Query]. *)
Definition queryStep (v : value) (a : ast) : queryResult :=
  match v with
  | VNil => QErr QE_NilReferenced
  | VMap z =>
      match typ a with
      | astType_NameIndexer =>
          match lookup (name a) z with
          | Some v' => QOk v'
          | None => QErr QE_PropertyDoesNotExist
          end
      | astType_NumberIndexer => QErr QE_ObjectByNumber
      | astType_Function => QErr QE_ObjectByFunction
      end
  | VSlice z =>
      let length := Z.of_nat (List.length z) in
      match typ a with
      | astType_NameIndexer => QErr QE_ArrayByName
      | astType_NumberIndexer =>
          let idx := if index a <? 0 then wrap_int (length - index a) else index a in
          if length <=? idx then QErr QE_IndexOutOfRange
          else if idx <? 0 then QPanic (* z[idx]: negative index *)
          else QOk (nth (Z.to_nat idx) z VNil)
      | astType_Function =>
          if gostring_eqb (name a) (runes "length") then QOk (VInt length)
          else if gostring_eqb (name a) (runes "first") then
            if length =? 0 then QErr QE_IndexOutOfRange else QOk (nth 0 z VNil)
          else if gostring_eqb (name a) (runes "last") then
            if length =? 0 then QErr QE_IndexOutOfRange
            else QOk (nth (Z.to_nat (length - 1)) z VNil)
          else QErr QE_UndefinedFunction
      end
  | _ => QErr QE_UnexpectedDataType
  end.

Fixpoint query_loop (l : list ast) (v : value) : queryResult :=
  match l with
  | [] => QOk v
  | a :: l' =>
      match queryStep v a with
      | QOk v' => query_loop l' v'
      | r => r
      end
  end.

Definition Query (p : CompiledJSONPath) (pjson : parsedJSON) : queryResult :=
  match pj_typ pjson with
  | Type_Invalid => QErr QE_NotRead
  | _ => query_loop (asts p) (pj_value pjson)
  end.

(** A Go call that returns or panics. *)
Inductive goResult (A : Type) := Ret (a : A) | Panics.
Arguments Ret {A} a.
Arguments Panics {A}.

Definition QueryAsStringOrZero (p : CompiledJSONPath) (pjson : parsedJSON)
  : goResult gostring :=
  match Query p pjson with
  | QPanic => Panics
  | QErr _ => Ret []
  | QOk (VString s) => Ret s
  | QOk _ => Ret []
  end.

Definition QueryAsNumberOrZero (p : CompiledJSONPath) (pjson : parsedJSON)
  : goResult float :=
  match Query p pjson with
  | QPanic => Panics
  | QErr _ => Ret 0%float
  | QOk (VFloat64 f) => Ret f
  | QOk _ => Ret 0%float
  end.

(** ** Reading a document *)

(** [strings.TrimSpace] on a valid UTF-8 string: drop the runes for which
    [unicode.IsSpace] holds at both ends. *)
Fixpoint trimLeftSpace (s : gostring) : gostring :=
  match s with
  | [] => []
  | c :: s' => if IsSpace c then trimLeftSpace s' else s
  end.

Definition TrimSpace (s : gostring) : gostring :=
  rev (trimLeftSpace (rev (trimLeftSpace s))).

(** The errors [ReadString] returns, by kind. *)
Inductive readError :=
| RE_SourceEmpty              (* ReadString: Source is empty *)
| RE_UnrecognisedTokens       (* ReadString: Unrecognised tokens appeared *)
| RE_Unmarshal.               (* the error of json.Unmarshal *)

Inductive readResult :=
| ReadOk (p : parsedJSON)
| ReadErr (e : readError).

(** [newParsedJSON]: the zero [parsedJSON]. *)
Definition newParsedJSON : parsedJSON := mkParsed Type_Invalid VNil.

(** [(parsedJSON).Root] *)
Definition Root (p : parsedJSON) : value := pj_value p.

(** [ReadString].  The four [json.Unmarshal] calls are the library's
    decoders into a [map[string]interface{}], a [[]interface{}], a [string]
    and a [float64], each given the trimmed source; [None] is a non-nil
    error.  The source is the sequence of code points of a valid UTF-8
    string: [src[0]] is its first byte, which equals one of the ASCII
    characters the [switch] tests exactly when the first code point does. *)
Section ReadString.
Variable unmarshal_object : gostring -> option (list (gostring * value)).
Variable unmarshal_array : gostring -> option (list value).
Variable unmarshal_string : gostring -> option gostring.
Variable unmarshal_number : gostring -> option float.

Definition ReadString (src : gostring) : readResult :=
  let p := newParsedJSON in
  let src2 := TrimSpace src in
  match src with
  | [] => ReadErr RE_SourceEmpty
  | c :: _ =>
      if c =? 110 then
        (* 'n' *)
        if negb (gostring_eqb src (runes "null")) then ReadErr RE_UnrecognisedTokens
        else ReadOk (mkParsed Type_Null VNil)
      else if c =? 123 then
        (* '{' *)
        match unmarshal_object src2 with
        | Some dst => ReadOk (mkParsed Type_Object (VMap dst))
        | None => ReadErr RE_Unmarshal
        end
      else if c =? 91 then
        (* '[' *)
        match unmarshal_array src2 with
        | Some dst => ReadOk (mkParsed Type_Array (VSlice dst))
        | None => ReadErr RE_Unmarshal
        end
      else if c =? 34 then
        (* the double quote *)
        match unmarshal_string src2 with
        | Some dst => ReadOk (mkParsed Type_String (VString dst))
        | None => ReadErr RE_Unmarshal
        end
      else
        match unmarshal_number src2 with
        | Some dst => ReadOk (mkParsed Type_Number (VFloat64 dst))
        | None => ReadErr RE_Unmarshal
        end
  end.

End ReadString.

(** ** Paths built from segments and whitespace runs *)

(** A valid path is [$] followed by segments: [.name], [.(func)], [[digits]]
    and [['quoted']] (or the double-quoted form). [body] of a quoted segment
    is the text after the opening quote, closing quote included. Each segment
    carries a [spacing]: [sp_a] before it, and [sp_b], [sp_c], [sp_d] at the
    token boundaries inside it, in the order they appear. *)
Inductive segment :=
| SegName (n : list rune)
| SegFunc (n : list rune)
| SegIndex (d : list rune)
| SegQuoted (q : rune) (body : list rune).

Record spacing := mkSpacing { sp_a : list rune; sp_b : list rune; sp_c : list rune; sp_d : list rune }.

(** the characters [skipSpaces] skips *)
Definition is_ws (c : rune) : bool := IsSpace c || IsControl c.
Definition ws_run (w : list rune) : Prop := Forall (fun c => is_ws c = true) w.
(** the characters [parseBareName] accepts *)
Definition bare_char (c : rune) : bool := negb (is_ws c) && negb (isNamePunct c).
Definition head_not (f : rune -> bool) (r : list rune) : Prop :=
  match r with [] => True | c :: _ => f c = false end.

Definition digits_value (d : list rune) : Z :=
  fold_left (fun acc c => acc * 10 + (c - 48)) d 0.

(** Well-formed segments: nonempty bare names, digit runs that fit in int64,
    quoted bodies that [parseQuotedName] reads exactly to their end. *)
Definition segment_ok (sg : segment) : Prop :=
  match sg with
  | SegName n | SegFunc n => n <> [] /\ Forall (fun c => bare_char c = true) n
  | SegIndex d => d <> [] /\ Forall (fun c => isDecDigit c = true) d
                  /\ digits_value d <= 2 ^ 63 - 1
  | SegQuoted q body => (q = 39 \/ q = 34)
                        /\ exists nm, parseQuotedName body q 0 = Some (nm, List.length body)
  end.

Definition spacing_ok (w : spacing) : Prop :=
  ws_run (sp_a w) /\ ws_run (sp_b w) /\ ws_run (sp_c w) /\ ws_run (sp_d w).

(** The step a segment stands for. *)
Definition segment_ast (sg : segment) : ast :=
  match sg with
  | SegName n => nameIndexer (string_of_runes n)
  | SegFunc n => functionAst (string_of_runes n)
  | SegIndex d => numberIndexer (digits_value d)
  | SegQuoted q body =>
      nameIndexer (match parseQuotedName body q 0 with Some (nm, _) => nm | None => [] end)
  end.

Definition segment_core (sg : segment) (w : spacing) : list rune :=
  match sg with
  | SegName n => [46] ++ sp_b w ++ n
  | SegFunc n => [46] ++ sp_b w ++ [40] ++ sp_c w ++ n ++ sp_d w ++ [41]
  | SegIndex d => [91] ++ sp_b w ++ d ++ sp_c w ++ [93]
  | SegQuoted q body => [91] ++ sp_b w ++ [q] ++ body ++ sp_c w ++ [93]
  end.

(** The path text; [tail] is trailing whitespace. *)
Fixpoint render_segments (p : list (segment * spacing)) (tail : list rune) : list rune :=
  match p with
  | [] => tail
  | (sg, w) :: p' => sp_a w ++ segment_core sg w ++ render_segments p' tail
  end.

Definition render_path (p : list (segment * spacing)) (tail : list rune) : list rune :=
  [36] ++ render_segments p tail.

(** [render_segments] split after the whitespace before its first segment. *)
Definition lead (p : list (segment * spacing)) (tail : list rune) : list rune :=
  match p with [] => tail | (_, w) :: _ => sp_a w end.

Definition after_lead (p : list (segment * spacing)) (tail : list rune) : list rune :=
  match p with [] => [] | (sg, w) :: p' => segment_core sg w ++ render_segments p' tail end.

Definition segs_ok (p : list (segment * spacing)) : Prop :=
  Forall (fun x => segment_ok (fst x) /\ spacing_ok (snd x)) p.

(** Two spacings of the path [$.test[1].abc]. *)
Definition no_space : spacing := mkSpacing [] [] [] [].
Definition one_space : spacing := mkSpacing [32] [32] [32] [32].

Definition test_1_abc (w : spacing) : list (segment * spacing) :=
  [(SegName (runes "test"), w); (SegIndex (runes "1"), w); (SegName (runes "abc"), w)].

(** ** Paths and documents used by the claims *)

Definition nonneg_index (a : ast) : Prop := 0 <= index a.

(** Paths used below. *)
Definition quoted_path (body : list rune) : list rune :=
  runes "$[" ++ DQ ++ body ++ DQ ++ runes "]".

Definition abc_steps : CompiledJSONPath := mkCompiled [nameIndexer (runes "abc")].

(** The document [{"a":{"b":1}}]. *)
Definition doc_a_b : parsedJSON :=
  mkParsed Type_Object (VMap [(runes "a", VMap [(runes "b", VFloat64 1%float)])]).

Definition doc_empty_array : parsedJSON :=
  mkParsed Type_Object (VMap [(runes "a", VSlice [])]).

Definition doc_test : parsedJSON :=
  mkParsed Type_Object
    (VMap [(runes "test", VSlice [VMap [(runes "abc", VFloat64 1%float)];
                                  VMap [(runes "abc", VFloat64 10%float)]])]).

(** ** Document shapes and quoting *)

(** The root value has the shape its [JSONValueType] names. *)
Definition shape_ok (p : parsedJSON) : Prop :=
  match pj_typ p, Root p with
  | Type_Null, VNil | Type_Number, VFloat64 _ | Type_String, VString _
  | Type_Object, VMap _ | Type_Array, VSlice _ => True
  | _, _ => False
  end.

(** The scalar values: a step below them finds no container. *)
Definition is_scalar (v : value) : bool :=
  match v with VFloat64 _ | VString _ | VBool _ | VInt _ => true | _ => false end.

(** Writing a name between quotes [q]: the quote and the backslash get a
    backslash before them. *)
Fixpoint quoteName (q : rune) (n : list rune) : list rune :=
  match n with
  | [] => []
  | c :: n' => (if (c =? q) || (c =? 92) then [92; c] else [c]) ++ quoteName q n'
  end.

(** A quoted body that never reaches an unescaped closing quote [q]: a
    backslash always takes the next code point with it. *)
Fixpoint unclosed (q : rune) (l : list rune) : bool :=
  match l with
  | [] => true
  | c :: l' =>
      if c =? 92 then match l' with [] => true | _ :: l'' => unclosed q l'' end
      else negb (c =? q) && unclosed q l'
  end.

(** ** Spellings of a code point inside a quoted name *)

(** A code point written as itself, as a backslash and a letter of the
    table, as [\xHH], as [\uHHHH] or as [\u{H..H}] with [w] digits. *)
Inductive spelling :=
| SpPlain
| SpShort
| SpHex2
| SpHex4
| SpBraced (w : nat).

Definition short_escape (c : rune) : option rune :=
  if (c =? 92) || (c =? 34) || (c =? 39) || (c =? 96) then Some c
  else if c =? 10 then Some 110
  else if c =? 13 then Some 114
  else if c =? 11 then Some 118
  else if c =? 9 then Some 116
  else if c =? 8 then Some 98
  else if c =? 12 then Some 102
  else None.

Definition hex_digit (d : Z) : rune := if d <? 10 then 48 + d else 87 + d.

Fixpoint hex_digits (w : nat) (c : Z) : list rune :=
  match w with
  | O => []
  | S w' => hex_digits w' (c / 16) ++ [hex_digit (c mod 16)]
  end.

Definition spell (sp : spelling) (c : rune) : list rune :=
  match sp with
  | SpPlain => [c]
  | SpShort => match short_escape c with Some e => [92; e] | None => [] end
  | SpHex2 => [92; 120] ++ hex_digits 2 c
  | SpHex4 => [92; 117] ++ hex_digits 4 c
  | SpBraced w => [92; 117; 123] ++ hex_digits w c ++ [125]
  end.

Definition spell_name (l : list (spelling * rune)) : list rune :=
  flat_map (fun x => spell (fst x) (snd x)) l.

Definition spell_ok (q : rune) (sp : spelling) (c : rune) : bool :=
  match sp with
  | SpPlain => negb (c =? q) && negb (c =? 92)
  | SpShort => match short_escape c with Some _ => true | None => false end
  | SpHex2 => (0 <=? c) && (c <? 16 ^ 2)
  | SpHex4 => (0 <=? c) && (c <? 16 ^ 4)
  | SpBraced w => Nat.leb 1 w && Nat.leb w 6 && (0 <=? c) && (c <? 16 ^ Z.of_nat w)
  end.

Definition next_not_hex (l : list (spelling * rune)) : bool :=
  match l with (SpPlain, c) :: _ => negb (isHexDigit c) | _ => true end.

Fixpoint spellings_ok (q : rune) (l : list (spelling * rune)) : bool :=
  match l with
  | [] => true
  | (sp, c) :: l' =>
      spell_ok q sp c
      && match sp with SpHex4 => next_not_hex l' | _ => true end
      && spellings_ok q l'
  end.

(** The name [abc] written plainly. *)
Definition abc_plain : list (spelling * rune) := [(SpPlain, 97); (SpPlain, 98); (SpPlain, 99)].

(** The document [{"s":"x"}]. *)
Definition doc_s : parsedJSON :=
  mkParsed Type_Object (VMap [(runes "s", VString (runes "x"))]).

(** ** General facts about the evaluator *)

Lemma query_loop_app (l1 l2 : list ast) (v : value) :
  query_loop (l1 ++ l2) v =
  match query_loop l1 v with
  | QOk v' => query_loop l2 v'
  | r => r
  end.
Proof.
  revert v; induction l1 as [|a l1 IH]; intro v; simpl; [reflexivity|].
  destruct (queryStep v a); auto.
Qed.

Lemma Query_app (l1 l2 : list ast) (pj : parsedJSON) :
  Query (mkCompiled (l1 ++ l2)) pj =
  match Query (mkCompiled l1) pj with
  | QOk v' => query_loop l2 v'
  | r => r
  end.
Proof.
  unfold Query; simpl; destruct (pj_typ pj); try reflexivity;
    apply query_loop_app.
Qed.

(** A step never panics unless it is a negative number indexer. *)
Lemma queryStep_panic_negative (v : value) (a : ast) :
  queryStep v a = QPanic -> index a < 0.
Proof.
  unfold queryStep; destruct v; try discriminate.
  - destruct (typ a); try discriminate; destruct (lookup (name a) kvs); discriminate.
  - destruct (typ a).
    + discriminate.
    + destruct (index a <? 0) eqn:E; [intros _; lia|].
      destruct (_ <=? index a); [discriminate|].
      destruct (index a <? 0); discriminate.
    + repeat match goal with |- context [if ?b then _ else _] => destruct b end;
        discriminate.
Qed.

Lemma query_loop_no_panic (l : list ast) (v : value) :
  Forall (fun a => 0 <= index a) l -> query_loop l v <> QPanic.
Proof.
  intros H; revert v; induction H as [|a l Ha Hl IH]; intro v; simpl; [discriminate|].
  destruct (queryStep v a) eqn:E; [apply IH|discriminate|].
  apply queryStep_panic_negative in E; lia.
Qed.

(** ** The compiler only emits non-negative indices *)

Lemma skipSpaces_loop_ge (rest : list rune) (i j : nat) :
  skipSpaces_loop rest i = Some j -> (i <= j)%nat.
Proof.
  revert i; induction rest as [|c rest IH]; intro i; simpl; [discriminate|].
  destruct (negb (IsSpace c) && negb (IsControl c)).
  - intros [= <-]; lia.
  - intros H; apply IH in H; lia.
Qed.

Lemma skipSpaces_pos (src : list rune) (s : nat) :
  (1 <= s)%nat -> (s <= List.length src)%nat -> (1 <= skipSpaces src s)%nat.
Proof.
  intros H1 H2; unfold skipSpaces.
  destruct (skipSpaces_loop (skipn s src) s) eqn:E.
  - apply skipSpaces_loop_ge in E; lia.
  - lia.
Qed.

(** Away from position 0, [parseNumber] only consumes decimal digits, so a
    successful run starts on a digit. *)
Lemma parseNumber_first_digit (src : list rune) (start e : nat) :
  (1 <= start)%nat -> parseNumber src start = Some e ->
  exists t, slice src start e = nth start src 0 :: t
            /\ isDecDigit (nth start src 0) = true.
Proof.
  intros Hs; unfold parseNumber, slice.
  destruct (skipn start src) as [|c rest] eqn:E; simpl.
  - rewrite Nat.eqb_refl; discriminate.
  - replace (Nat.eqb start 0) with false by (symmetry; apply Nat.eqb_neq; lia); simpl.
    assert (Hc : nth start src 0 = c).
    { rewrite <- (firstn_skipn start src) at 1.
      rewrite app_nth2 by (rewrite length_firstn; lia).
      rewrite length_firstn, E.
      assert (start <= List.length src)%nat.
      { destruct (Nat.le_gt_cases start (List.length src)); [assumption|].
        rewrite skipn_all2 in E by lia; discriminate. }
      replace (start - Nat.min start (List.length src))%nat with 0%nat by lia.
      reflexivity. }
    destruct (isDecDigit c) eqn:Hd.
    + intros H.
      destruct (Nat.eqb (parseNumber_loop rest (S start)) start) eqn:Ee; [discriminate|].
      injection H as <-.
      destruct (parseNumber_loop rest (S start) - start)%nat eqn:Ed.
      * apply Nat.eqb_neq in Ee.
        assert (Hge : forall r k, (k <= parseNumber_loop r k)%nat).
        { induction r as [|x r IHr]; intro k; simpl; [lia|].
          destruct (Nat.eqb k 0 && (x =? 45)); [specialize (IHr (S k)); lia|].
          destruct (isDecDigit x); [specialize (IHr (S k)); lia|lia]. }
        specialize (Hge rest (S start)); lia.
      * exists (firstn n rest); rewrite Hc; split; [reflexivity|exact Hd].
    + rewrite Nat.eqb_refl; discriminate.
Qed.

Lemma parseUintDigits_nonneg (base acc : Z) (s : list rune) (v : Z) :
  0 <= acc -> parseUintDigits base acc s = Some v -> 0 <= v.
Proof.
  revert acc; induction s as [|c s IH]; intros acc Hacc; simpl.
  - intros [= <-]; assumption.
  - unfold digitVal.
    repeat match goal with |- context [if ?b then _ else _] =>
      let E := fresh in destruct b eqn:E end; try discriminate;
      intro Hp; apply IH in Hp; auto;
      repeat match goal with H : (_ && _)%bool = true |- _ => apply andb_prop in H; destruct H end;
      repeat match goal with H : (_ <=? _) = true |- _ => apply Z.leb_le in H end;
      repeat match goal with H : (_ <? _) = true |- _ => apply Z.ltb_lt in H end;
      nia.
Qed.

Lemma ParseInt_digit_nonneg (c : rune) (t : list rune) (base v : Z) :
  isDecDigit c = true -> ParseInt (c :: t) base = Some v -> 0 <= v.
Proof.
  intros Hd; unfold ParseInt.
  unfold isDecDigit in Hd; apply andb_prop in Hd; destruct Hd as [H1 H2].
  apply Z.leb_le in H1; apply Z.leb_le in H2.
  replace (c =? 43) with false by (symmetry; apply Z.eqb_neq; lia).
  replace (c =? 45) with false by (symmetry; apply Z.eqb_neq; lia).
  unfold ParseUint.
  destruct (parseUintDigits base 0 (c :: t)) as [u|] eqn:Eu; [|discriminate].
  apply parseUintDigits_nonneg in Eu; [|lia].
  destruct (u <? 2 ^ 64); [|discriminate]; simpl.
  destruct (_ <=? u); [discriminate|].
  intros Hv; injection Hv as <-; assumption.
Qed.

Lemma string_of_runes_digit (c : rune) (t : list rune) :
  isDecDigit c = true -> exists t', string_of_runes (c :: t) = c :: t'.
Proof.
  intros Hd; unfold isDecDigit in Hd; apply andb_prop in Hd; destruct Hd as [H1 H2].
  apply Z.leb_le in H1; apply Z.leb_le in H2.
  simpl; exists (string_of_runes t).
  unfold ValidRune.
  replace ((0 <=? c) && (c <? 55296)) with true
    by (symmetry; apply andb_true_intro; split; [apply Z.leb_le|apply Z.ltb_lt]; lia).
  reflexivity.
Qed.

Lemma compileCore_loop_nonneg (fuel : nat) (src : list rune) (i : nat)
  (acc : list ast) (p : CompiledJSONPath) :
  (1 <= i)%nat -> Forall nonneg_index acc ->
  compileCore_loop fuel src i acc = CompileOk p -> Forall nonneg_index (asts p).
Proof.
  revert i acc; induction fuel as [|fuel IH]; intros i acc Hi Hacc; simpl;
    [discriminate|].
  destruct (Nat.ltb i (List.length src)) eqn:Hlt;
    [|intros [= <-]; assumption].
  apply Nat.ltb_lt in Hlt.
  destruct (IsSpace (nth i src 0) || IsControl (nth i src 0)).
  { apply IH; [lia|assumption]. }
  destruct (nth i src 0 =? 91).
  - destruct (Nat.eqb (skipSpaces src (i + 1)) (List.length src)); [discriminate|].
    set (start := skipSpaces src (i + 1)).
    assert (Hst : (1 <= start)%nat) by (apply skipSpaces_pos; lia).
    destruct (isDecDigit (nth start src 0) || (nth start src 0 =? 45)).
    + destruct (parseNumber src start) as [e|] eqn:Hpn; [|discriminate].
      destruct (parseNumber_first_digit src start e Hst Hpn) as [t [Hsl Hd]].
      rewrite Hsl.
      destruct (string_of_runes_digit _ t Hd) as [t' Ht']; rewrite Ht'.
      destruct (ParseInt (nth start src 0 :: t') 10) as [num|] eqn:Hpi; [|discriminate].
      apply ParseInt_digit_nonneg in Hpi; [|assumption].
      destruct (Nat.eqb (skipSpaces src e) (List.length src)); [discriminate|].
      destruct (negb (nth (skipSpaces src e) src 0 =? 93)); [discriminate|].
      apply IH; [lia|].
      apply Forall_app; split; [assumption|].
      constructor; [exact Hpi|constructor].
    + destruct ((nth start src 0 =? 39) || (nth start src 0 =? 34));
        [|discriminate].
      destruct (parseQuotedName src (nth start src 0) (start + 1)) as [[nm e]|];
        [|discriminate].
      destruct (Nat.eqb (skipSpaces src e) (List.length src)); [discriminate|].
      destruct (negb (nth (skipSpaces src e) src 0 =? 93)); [discriminate|].
      apply IH; [lia|].
      apply Forall_app; split; [assumption|].
      constructor; [unfold nonneg_index; simpl; lia|constructor].
  - destruct (nth i src 0 =? 46); [|discriminate].
    destruct (Nat.eqb (skipSpaces src (i + 1)) (List.length src)); [discriminate|].
    destruct (nth (skipSpaces src (i + 1)) src 0 =? 40).
    + destruct (parseBareName src (skipSpaces src (skipSpaces src (i + 1) + 1)))
        as [[nm e]|]; [|discriminate].
      destruct (Nat.eqb (skipSpaces src e) (List.length src)); [discriminate|].
      destruct (negb (nth (skipSpaces src e) src 0 =? 41)); [discriminate|].
      apply IH; [lia|].
      apply Forall_app; split; [assumption|].
      constructor; [unfold nonneg_index; simpl; lia|constructor].
    + destruct (parseBareName src (skipSpaces src (i + 1))) as [[nm e]|];
        [|discriminate].
      apply IH; [lia|].
      apply Forall_app; split; [assumption|].
      constructor; [unfold nonneg_index; simpl; lia|constructor].
Qed.

Lemma Compile_nonneg (path : list rune) (p : CompiledJSONPath) :
  Compile path = CompileOk p -> Forall nonneg_index (asts p).
Proof.
  unfold Compile, compileCore; destruct path as [|c0 rest]; [discriminate|].
  destruct (negb (c0 =? 36)); [discriminate|].
  apply compileCore_loop_nonneg; [lia|constructor].
Qed.

(** ** Compiling a path rendered from segments *)

(** [parseQuotedName] run on a suffix of the source reads the same name. *)
Section Shift.
Variables (src body r : list rune) (s : nat).
Hypothesis Hsrc : skipn s src = body ++ r.
Hypothesis Hs : (s <= List.length src)%nat.

Lemma shift_length : List.length src = (s + List.length body + List.length r)%nat.
Proof.
  pose proof (f_equal (@List.length rune) Hsrc) as H.
  rewrite length_skipn, length_app in H; lia.
Qed.

Lemma shift_nth (k : nat) :
  (k < List.length body)%nat -> nth (s + k) src 0 = nth k body 0.
Proof.
  intros Hk.
  rewrite <- (firstn_skipn s src) at 1.
  rewrite app_nth2 by (rewrite length_firstn; lia).
  rewrite length_firstn, Hsrc.
  replace (s + k - Nat.min s (List.length src))%nat with k by lia.
  apply app_nth1; assumption.
Qed.

Lemma shift_skipn (k : nat) :
  (k <= List.length body)%nat -> skipn (s + k) src = skipn k body ++ r.
Proof.
  intros Hk.
  rewrite Nat.add_comm, <- skipn_skipn, Hsrc, skipn_app.
  replace (k - List.length body)%nat with 0%nat by lia; reflexivity.
Qed.

Lemma shift_slice (a b : nat) :
  (a <= b)%nat -> (b <= List.length body)%nat ->
  slice src (s + a) (s + b) = slice body a b.
Proof.
  intros Hab Hb; unfold slice.
  rewrite shift_skipn by lia.
  replace (s + b - (s + a))%nat with (b - a)%nat by lia.
  rewrite firstn_app, length_skipn.
  replace (b - a - (List.length body - a))%nat with 0%nat by lia.
  rewrite app_nil_r; reflexivity.
Qed.

Lemma parseHex_loop_shift (X : list rune) (k d : nat) :
  parseHex_loop X (d + k) = (d + parseHex_loop X k)%nat.
Proof.
  revert k; induction X as [|c X IH]; intro k; simpl; [reflexivity|].
  destruct (isHexDigit c); [|reflexivity].
  rewrite <- IH; f_equal; lia.
Qed.

Lemma parseHex_loop_le (X : list rune) (k : nat) :
  (k <= parseHex_loop X k <= k + List.length X)%nat.
Proof.
  revert k; induction X as [|c X IH]; intro k; simpl; [lia|].
  destruct (isHexDigit c); [specialize (IH (S k)); lia|lia].
Qed.

Lemma parseHex_loop_app (X Y : list rune) (k : nat) :
  (parseHex_loop X k < k + List.length X)%nat ->
  parseHex_loop (X ++ Y) k = parseHex_loop X k.
Proof.
  revert k; induction X as [|c X IH]; intro k; simpl; [lia|].
  destruct (isHexDigit c); [|reflexivity].
  intros H; apply IH; lia.
Qed.

Lemma shift_parseHex (j e : nat) :
  (j <= List.length body)%nat -> (e < List.length body)%nat ->
  parseHex body j = Some e -> parseHex src (s + j) = Some (s + e)%nat.
Proof.
  intros Hj He; unfold parseHex.
  rewrite shift_skipn by assumption.
  pose proof (parseHex_loop_le (skipn j body) j) as Hle.
  rewrite length_skipn in Hle.
  destruct (Nat.eqb (parseHex_loop (skipn j body) j) j) eqn:E; [discriminate|].
  intros [= <-].
  rewrite parseHex_loop_shift, parseHex_loop_app by (rewrite length_skipn; lia).
  apply Nat.eqb_neq in E.
  replace (Nat.eqb (s + parseHex_loop (skipn j body) j) (s + j)) with false
    by (symmetry; apply Nat.eqb_neq; lia).
  reflexivity.
Qed.

Lemma parseQuotedName_loop_pos (fuel : nat) (l : list rune) (q : rune) (i : nat)
  (buf : list rune) res :
  parseQuotedName_loop fuel l q i buf = Some res -> (i < List.length l)%nat.
Proof.
  destruct fuel; cbn [parseQuotedName_loop]; [discriminate|].
  destruct (Nat.ltb i (List.length l)) eqn:E; [|discriminate].
  intros _; apply Nat.ltb_lt; assumption.
Qed.

Lemma shift_parseQuotedName_loop (fuel : nat) : forall (fuel' : nat) (q : rune) (i p : nat)
  (buf : list rune) (nm : gostring) (e : nat),
  (fuel <= fuel')%nat -> p = (s + i)%nat ->
  parseQuotedName_loop fuel body q i buf = Some (nm, e) ->
  parseQuotedName_loop fuel' src q p buf = Some (nm, s + e)%nat.
Proof.
  induction fuel as [|f IH]; intros fuel' q i p buf nm e Hf Hp H; [discriminate|].
  destruct fuel' as [|f']; [lia|].
  pose proof (parseQuotedName_loop_pos _ _ _ _ _ _ H) as Hi.
  pose proof shift_length as Hlen.
  cbn [parseQuotedName_loop] in H |- *.
  replace (Nat.ltb i (List.length body)) with true in H
    by (symmetry; apply Nat.ltb_lt; lia).
  replace (Nat.ltb p (List.length src)) with true
    by (symmetry; apply Nat.ltb_lt; lia).
  replace (nth p src 0) with (nth i body 0) by (subst p; symmetry; apply shift_nth; lia).
  assert (Hhex : forall l j e1, parseHex l j = Some e1 -> (j < e1)%nat).
  { intros l j e1; unfold parseHex.
    pose proof (parseHex_loop_le (skipn j l) j).
    destruct (Nat.eqb (parseHex_loop (skipn j l) j) j) eqn:Ej; [discriminate|].
    apply Nat.eqb_neq in Ej; intros [= <-]; lia. }
  destruct (nth i body 0 =? q).
  { injection H as <- <-; subst p; do 2 f_equal; lia. }
  destruct (nth i body 0 =? 92).
  2: { eapply IH; [lia| |exact H]; lia. }
  destruct (Nat.eqb (i + 1) (List.length body)) eqn:E1; [discriminate|].
  apply Nat.eqb_neq in E1.
  replace (Nat.eqb (p + 1) (List.length src)) with false
    by (symmetry; apply Nat.eqb_neq; lia).
  replace (nth (p + 1) src 0) with (nth (i + 1) body 0)
    by (subst p; rewrite <- Nat.add_assoc; symmetry; apply shift_nth; lia).
  do 7 (match goal with
        | H : context [if ?b then _ else _] |- context [if ?b then _ else _] =>
            destruct b; [eapply IH; [lia| |exact H]; lia|]
        end).
  destruct ((nth (i + 1) body 0 =? 120) || (nth (i + 1) body 0 =? 88)).
  { destruct (Nat.leb (List.length body) (i + 3)) eqn:E3; [discriminate|].
    apply Nat.leb_gt in E3.
    replace (Nat.leb (List.length src) (p + 3)) with false
      by (symmetry; apply Nat.leb_gt; lia).
    replace (slice src (p + 2) (p + 4)) with (slice body (i + 2) (i + 4))
      by (subst p; rewrite <- !Nat.add_assoc; symmetry; apply shift_slice; lia).
    destruct (ParseInt (string_of_runes (slice body (i + 2) (i + 4))) 16);
      [|discriminate].
    eapply IH; [lia| |exact H]; lia. }
  destruct ((nth (i + 1) body 0 =? 117) || (nth (i + 1) body 0 =? 85)).
  2: { eapply IH; [lia| |exact H]; lia. }
  destruct (Nat.leb (List.length body) (i + 2)) eqn:E2; [discriminate|].
  apply Nat.leb_gt in E2.
  replace (Nat.leb (List.length src) (p + 2)) with false
    by (symmetry; apply Nat.leb_gt; lia).
  replace (nth (p + 2) src 0) with (nth (i + 2) body 0)
    by (subst p; rewrite <- Nat.add_assoc; symmetry; apply shift_nth; lia).
  destruct (nth (i + 2) body 0 =? 123).
  - destruct (parseHex body (i + 3)) as [e1|] eqn:Eh; [|discriminate].
    pose proof (Hhex _ _ _ Eh) as He1.
    destruct (Nat.ltb (i + 9) e1) eqn:E9; [discriminate|].
    apply Nat.ltb_ge in E9.
    destruct (ParseInt (string_of_runes (slice body (i + 3) e1)) 16) eqn:Ep;
      [|discriminate].
    destruct (Nat.leb (List.length body) e1) eqn:El; [discriminate|].
    apply Nat.leb_gt in El.
    replace (parseHex src (p + 3)) with (Some (s + e1)%nat)
      by (subst p; rewrite <- Nat.add_assoc; symmetry; apply shift_parseHex;
          [lia|lia|exact Eh]).
    replace (Nat.ltb (p + 9) (s + e1)) with false
      by (symmetry; apply Nat.ltb_ge; lia).
    replace (slice src (p + 3) (s + e1)) with (slice body (i + 3) e1)
      by (subst p; rewrite <- Nat.add_assoc; symmetry; apply shift_slice; lia).
    rewrite Ep.
    replace (Nat.leb (List.length src) (s + e1)) with false
      by (symmetry; apply Nat.leb_gt; lia).
    replace (nth (s + e1) src 0) with (nth e1 body 0)
      by (symmetry; apply shift_nth; lia).
    destruct (negb (nth e1 body 0 =? 125)); [discriminate|].
    eapply IH; [lia| |exact H]; lia.
  - destruct (Nat.leb (List.length body) (i + 5)) eqn:E5; [discriminate|].
    apply Nat.leb_gt in E5.
    replace (Nat.leb (List.length src) (p + 5)) with false
      by (symmetry; apply Nat.leb_gt; lia).
    destruct (parseHex body (i + 2)) as [e1|] eqn:Eh; [|discriminate].
    destruct (negb (Nat.eqb e1 (i + 6))) eqn:E6; [discriminate|].
    apply negb_false_iff, Nat.eqb_eq in E6.
    destruct (ParseInt (string_of_runes (slice body (i + 2) e1)) 16) eqn:Ep;
      [|discriminate].
    pose proof (parseQuotedName_loop_pos _ _ _ _ _ _ H) as Hpos.
    replace (parseHex src (p + 2)) with (Some (s + e1)%nat)
      by (subst p; rewrite <- Nat.add_assoc; symmetry; apply shift_parseHex;
          [lia|lia|exact Eh]).
    replace (negb (Nat.eqb (s + e1) (p + 6))) with false
      by (symmetry; apply negb_false_iff, Nat.eqb_eq; lia).
    replace (slice src (p + 2) (s + e1)) with (slice body (i + 2) e1)
      by (subst p; rewrite <- Nat.add_assoc; symmetry; apply shift_slice; lia).
    rewrite Ep.
    eapply IH; [lia| |exact H]; lia.
Qed.
End Shift.

Lemma shift_parseQuotedName (src body r : list rune) (s : nat) (q : rune)
  (nm : gostring) (e : nat) :
  skipn s src = body ++ r -> (s <= List.length src)%nat ->
  parseQuotedName body q 0 = Some (nm, e) ->
  parseQuotedName src q s = Some (nm, s + e)%nat.
Proof.
  intros Hsrc Hs H; unfold parseQuotedName in *.
  pose proof (shift_length src body r s Hsrc Hs).
  eapply shift_parseQuotedName_loop; [exact Hsrc|exact Hs| | |exact H]; lia.
Qed.

(** Scanning a rendered path, one token at a time. *)

Lemma skipn_cons_at (src r : list rune) (i : nat) (c : rune) :
  skipn i src = c :: r -> nth i src 0 = c /\ skipn (S i) src = r /\ (i < List.length src)%nat.
Proof.
  revert src; induction i as [|i IH]; intros src H; destruct src as [|x src];
    simpl in *; try discriminate.
  - injection H as -> ->; split; [reflexivity|split; [reflexivity|lia]].
  - destruct (IH src H) as [H1 [H2 H3]]; split; [assumption|split; [assumption|lia]].
Qed.

Lemma skipn_app_at (src X Y : list rune) (i : nat) :
  skipn i src = X ++ Y -> (i <= List.length src)%nat ->
  skipn (i + List.length X) src = Y /\ (i + List.length X <= List.length src)%nat.
Proof.
  intros H Hi.
  pose proof (f_equal (@List.length rune) H) as HL.
  rewrite length_skipn, length_app in HL.
  split; [|lia].
  rewrite Nat.add_comm, <- skipn_skipn, H, skipn_app, Nat.sub_diag, skipn_all; reflexivity.
Qed.

Lemma skipSpaces_loop_ws (w r : list rune) (i : nat) :
  ws_run w -> skipSpaces_loop (w ++ r) i = skipSpaces_loop r (i + List.length w).
Proof.
  intros Hw; revert i; induction Hw as [|c w Hc Hw IH]; intro i; simpl.
  - rewrite Nat.add_0_r; reflexivity.
  - unfold is_ws in Hc.
    destruct (IsSpace c), (IsControl c); simpl in *; try discriminate;
      rewrite IH; f_equal; lia.
Qed.

Lemma skipSpaces_at (src w r : list rune) (i : nat) :
  skipn i src = w ++ r -> (i <= List.length src)%nat -> ws_run w -> head_not is_ws r ->
  skipSpaces src i = (i + List.length w)%nat.
Proof.
  intros H Hi Hw Hr; unfold skipSpaces; rewrite H, skipSpaces_loop_ws by assumption.
  destruct r as [|c r]; simpl.
  - pose proof (f_equal (@List.length rune) H) as HL.
    rewrite length_skipn, length_app in HL; simpl in HL; lia.
  - simpl in Hr; unfold is_ws in Hr.
    destruct (IsSpace c), (IsControl c); simpl in *; try discriminate; reflexivity.
Qed.

Lemma parseBareName_loop_app (n r : list rune) (i : nat) (buf : list rune) :
  Forall (fun c => bare_char c = true) n ->
  parseBareName_loop (n ++ r) i buf = parseBareName_loop r (i + List.length n) (buf ++ n).
Proof.
  intros Hn; revert i buf; induction Hn as [|c n Hc Hn IH]; intros i buf; simpl.
  - rewrite Nat.add_0_r, app_nil_r; reflexivity.
  - unfold bare_char, is_ws in Hc.
    destruct (IsSpace c || IsControl c), (isNamePunct c); simpl in Hc; try discriminate.
    rewrite IH, <- app_assoc; f_equal; lia.
Qed.

Lemma parseBareName_loop_stop (r : list rune) (i : nat) (buf : list rune) :
  head_not bare_char r -> parseBareName_loop r i buf = (buf, i).
Proof.
  destruct r as [|c r]; simpl; [reflexivity|].
  unfold bare_char, is_ws; intros Hc.
  destruct (IsSpace c || IsControl c), (isNamePunct c); simpl in Hc; try discriminate;
    reflexivity.
Qed.

Lemma parseBareName_at (src n r : list rune) (i : nat) :
  skipn i src = n ++ r -> n <> [] -> Forall (fun c => bare_char c = true) n ->
  head_not bare_char r ->
  parseBareName src i = Some (string_of_runes n, i + List.length n)%nat.
Proof.
  intros H Hne Hn Hr; unfold parseBareName.
  rewrite H, parseBareName_loop_app, parseBareName_loop_stop by assumption; simpl.
  destruct n; [congruence|reflexivity].
Qed.

Lemma parseNumber_loop_app (d r : list rune) (i : nat) :
  (1 <= i)%nat -> Forall (fun c => isDecDigit c = true) d ->
  parseNumber_loop (d ++ r) i = parseNumber_loop r (i + List.length d).
Proof.
  intros Hi Hd; revert i Hi; induction Hd as [|c d Hc Hd IH]; intros i Hi; simpl.
  - rewrite Nat.add_0_r; reflexivity.
  - replace (Nat.eqb i 0) with false by (symmetry; apply Nat.eqb_neq; lia).
    simpl; rewrite Hc, IH by lia; f_equal; lia.
Qed.

Lemma parseNumber_at (src d r : list rune) (i : nat) :
  (1 <= i)%nat -> skipn i src = d ++ r -> d <> [] ->
  Forall (fun c => isDecDigit c = true) d -> head_not isDecDigit r ->
  parseNumber src i = Some (i + List.length d)%nat.
Proof.
  intros Hi H Hne Hd Hr; unfold parseNumber.
  rewrite H, parseNumber_loop_app by assumption.
  destruct r as [|c r]; simpl.
  - replace (Nat.eqb (i + List.length d) i) with false; [reflexivity|].
    symmetry; apply Nat.eqb_neq; destruct d; [congruence|simpl; lia].
  - simpl in Hr.
    replace (Nat.eqb (i + List.length d) 0) with false
      by (symmetry; apply Nat.eqb_neq; lia).
    simpl; rewrite Hr.
    replace (Nat.eqb (i + List.length d) i) with false; [reflexivity|].
    symmetry; apply Nat.eqb_neq; destruct d; [congruence|simpl; lia].
Qed.

Lemma slice_at (src d r : list rune) (i : nat) :
  skipn i src = d ++ r -> slice src i (i + List.length d) = d.
Proof.
  intros H; unfold slice; rewrite H.
  replace (i + List.length d - i)%nat with (List.length d) by lia.
  rewrite firstn_app, Nat.sub_diag, firstn_all; simpl; apply app_nil_r.
Qed.

Lemma string_of_runes_digits (d : list rune) :
  Forall (fun c => isDecDigit c = true) d -> string_of_runes d = d.
Proof.
  induction 1 as [|c d Hc Hd IH]; simpl; [reflexivity|].
  rewrite IH; f_equal.
  unfold isDecDigit in Hc; apply andb_prop in Hc; destruct Hc as [H1 H2].
  apply Z.leb_le in H1; apply Z.leb_le in H2.
  unfold ValidRune.
  replace ((0 <=? c) && (c <? 55296)) with true
    by (symmetry; apply andb_true_intro; split; [apply Z.leb_le|apply Z.ltb_lt]; lia).
  reflexivity.
Qed.

Lemma parseUintDigits_digits (d : list rune) (acc : Z) :
  Forall (fun c => isDecDigit c = true) d ->
  parseUintDigits 10 acc d = Some (fold_left (fun a c => a * 10 + (c - 48)) d acc).
Proof.
  intros Hd; revert acc; induction Hd as [|c d Hc Hd IH]; intro acc; simpl; [reflexivity|].
  unfold digitVal; unfold isDecDigit in Hc; rewrite Hc.
  apply andb_prop in Hc; destruct Hc as [H1 H2].
  apply Z.leb_le in H1; apply Z.leb_le in H2.
  replace (c - 48 <? 10) with true by (symmetry; apply Z.ltb_lt; lia).
  apply IH.
Qed.

Lemma digits_value_nonneg_gen (d : list rune) (acc : Z) :
  0 <= acc -> Forall (fun c => isDecDigit c = true) d ->
  0 <= fold_left (fun a c => a * 10 + (c - 48)) d acc.
Proof.
  intros Ha Hd; revert acc Ha; induction Hd as [|c d Hc Hd IH]; intros acc Ha; simpl;
    [assumption|].
  apply IH.
  unfold isDecDigit in Hc; apply andb_prop in Hc; destruct Hc as [H1 _].
  apply Z.leb_le in H1; lia.
Qed.

Lemma ParseInt_digits (d : list rune) :
  d <> [] -> Forall (fun c => isDecDigit c = true) d -> digits_value d <= 2 ^ 63 - 1 ->
  ParseInt d 10 = Some (digits_value d).
Proof.
  intros Hne Hd Hv.
  pose proof (digits_value_nonneg_gen d 0 (Z.le_refl 0) Hd) as Hnn.
  destruct d as [|c t]; [congruence|].
  pose proof (Forall_inv Hd) as Hc; simpl in Hc.
  unfold isDecDigit in Hc; apply andb_prop in Hc; destruct Hc as [H1 H2].
  apply Z.leb_le in H1; apply Z.leb_le in H2.
  unfold ParseInt.
  replace (c =? 43) with false by (symmetry; apply Z.eqb_neq; lia).
  replace (c =? 45) with false by (symmetry; apply Z.eqb_neq; lia).
  unfold ParseUint; rewrite parseUintDigits_digits by assumption.
  fold (digits_value (c :: t)).
  replace (digits_value (c :: t) <? 2 ^ 64) with true
    by (symmetry; apply Z.ltb_lt; lia).
  replace (2 ^ 63 <=? digits_value (c :: t)) with false
    by (symmetry; apply Z.leb_gt; lia).
  reflexivity.
Qed.

Lemma render_segments_split (p : list (segment * spacing)) (tail : list rune) :
  render_segments p tail = lead p tail ++ after_lead p tail.
Proof. destruct p as [|[sg w] p]; simpl; [rewrite app_nil_r|]; reflexivity. Qed.

Lemma after_lead_head (p : list (segment * spacing)) (tail : list rune) :
  head_not is_ws (after_lead p tail) /\ head_not bare_char (after_lead p tail)
  /\ head_not isDecDigit (after_lead p tail).
Proof.
  destruct p as [|[sg w] p]; simpl; [tauto|].
  destruct sg; simpl; repeat split; reflexivity.
Qed.

Lemma ws_head_not (w r : list rune) (f : rune -> bool) :
  ws_run w -> (forall c, is_ws c = true -> f c = false) -> head_not f r ->
  head_not f (w ++ r).
Proof.
  intros Hw Hf Hr; destruct Hw as [|c w Hc _]; simpl; [exact Hr|].
  apply Hf, Hc.
Qed.

Lemma ws_not_bare (c : rune) : is_ws c = true -> bare_char c = false.
Proof. unfold bare_char; intros ->; reflexivity. Qed.

Lemma ws_not_digit (c : rune) : is_ws c = true -> isDecDigit c = false.
Proof.
  unfold is_ws, IsSpace, IsControl, isDecDigit, MaxLatin1; intros H.
  destruct (48 <=? c) eqn:E1, (c <=? 57) eqn:E2; try reflexivity.
  apply Z.leb_le in E1; apply Z.leb_le in E2.
  exfalso; revert H.
  replace ((0 <=? c) && (c <=? 255)) with true
    by (symmetry; apply andb_true_intro; split; apply Z.leb_le; lia).
  assert (Hr : c = 48 \/ c = 49 \/ c = 50 \/ c = 51 \/ c = 52 \/ c = 53 \/ c = 54
               \/ c = 55 \/ c = 56 \/ c = 57) by lia.
  repeat destruct Hr as [-> | Hr]; [..|subst c]; cbv; discriminate.
Qed.

Lemma bare_not_ws (c : rune) : bare_char c = true -> is_ws c = false.
Proof. unfold bare_char; destruct (is_ws c); [discriminate|reflexivity]. Qed.

Lemma bare_not_paren (c : rune) : bare_char c = true -> (c =? 40) = false.
Proof.
  unfold bare_char; intros H; apply andb_prop in H; destruct H as [_ H].
  destruct (c =? 40) eqn:E; [|reflexivity].
  apply Z.eqb_eq in E; subst c; discriminate.
Qed.

Lemma digit_not_ws (c : rune) : isDecDigit c = true -> is_ws c = false.
Proof.
  intros H; destruct (is_ws c) eqn:E; [|reflexivity].
  apply ws_not_digit in E; congruence.
Qed.

Lemma compileCore_loop_ws (src w r : list rune) (i : nat) (f : nat) (acc : list ast) :
  skipn i src = w ++ r -> (i <= List.length src)%nat -> w <> [] -> ws_run w ->
  head_not is_ws r ->
  compileCore_loop (S f) src i acc = compileCore_loop f src (i + List.length w) acc.
Proof.
  intros H Hi Hne Hw Hr.
  destruct w as [|c w']; [congruence|].
  inversion Hw as [|c0 w0 Hc Hw']; subst.
  simpl in H; destruct (skipn_cons_at _ _ _ _ H) as [Hn [Hs Hlt]].
  cbn [compileCore_loop].
  replace (Nat.ltb i (List.length src)) with true by (symmetry; apply Nat.ltb_lt; lia).
  rewrite Hn; unfold is_ws in Hc; rewrite Hc.
  rewrite (skipSpaces_at src w' r (i + 1)) by (rewrite ?Nat.add_1_r; assumption || lia).
  f_equal; simpl; lia.
Qed.

Section Render.
Variables (src tail : list rune).
Hypothesis Htail : ws_run tail.

Lemma lead_ws (p : list (segment * spacing)) : segs_ok p -> ws_run (lead p tail).
Proof.
  destruct p as [|[sg w] p]; simpl; [intros _; exact Htail|].
  intros H; inversion H as [|x p0 [_ [Ha _]] _]; exact Ha.
Qed.

Lemma compileCore_loop_render (p : list (segment * spacing)) :
  segs_ok p ->
  forall fuel i w acc, (1 <= i)%nat -> (i <= List.length src)%nat -> ws_run w ->
  skipn i src = w ++ after_lead p tail -> (List.length src - i < fuel)%nat ->
  compileCore_loop fuel src i acc
  = CompileOk (mkCompiled (acc ++ map (fun x => segment_ast (fst x)) p)).
Proof.
  induction p as [|[sg sw] p IH]; intros Hok fuel i w acc Hi Hle Hw Hsk Hf.
  - simpl in Hsk; rewrite app_nil_r in Hsk |- *.
    assert (Hend : forall j f, skipn j src = [] -> (j <= List.length src)%nat ->
              compileCore_loop (S f) src j acc = CompileOk (mkCompiled acc)).
    { intros j f Hj Hjl.
      pose proof (f_equal (@List.length rune) Hj) as HL; rewrite length_skipn in HL;
        simpl in HL.
      cbn [compileCore_loop].
      replace (Nat.ltb j (List.length src)) with false
        by (symmetry; apply Nat.ltb_ge; lia).
      reflexivity. }
    destruct fuel as [|f]; [lia|].
    destruct w as [|c w'].
    + apply Hend; assumption.
    + rewrite (compileCore_loop_ws src (c :: w') [] i f acc)
        by (rewrite ?app_nil_r; try assumption; try discriminate; exact I).
      destruct (skipn_app_at src (c :: w') [] i) as [Hs2 Hl2];
        [rewrite app_nil_r; assumption|assumption|].
      destruct f as [|f]; [simpl in Hl2, Hf; lia|].
      apply Hend; assumption.
  - inversion Hok as [|x p0 [Hsg Hsp] Hok']; subst.
    assert (Hmain : forall fuel i acc, (1 <= i)%nat -> (i <= List.length src)%nat ->
       skipn i src = after_lead ((sg, sw) :: p) tail -> (List.length src - i < fuel)%nat ->
       compileCore_loop fuel src i acc
       = CompileOk (mkCompiled (acc ++ map (fun x => segment_ast (fst x)) ((sg, sw) :: p)))).
    { clear fuel i w acc Hi Hle Hw Hsk Hf.
      intros fuel i acc Hi Hle Hsk Hf.
      destruct fuel as [|f]; [lia|].
      destruct Hsp as [Ha [Hb [Hc Hd]]].
      simpl in Hsk; rewrite render_segments_split in Hsk.
      destruct (after_lead_head p tail) as [Hh1 [Hh2 Hh3]].
      pose proof (lead_ws p Hok') as HL.
      destruct sg as [n|n|d|q body]; simpl in Hsg, Hsk; rewrite <- ?app_assoc in Hsk;
        simpl in Hsk.
      + (* .name *)
        destruct Hsg as [Hne Hn].
        destruct n as [|c0 n']; [congruence|].
        destruct (skipn_cons_at _ _ _ _ Hsk) as [Hn0 [Hs1 Hlt]].
        cbn [compileCore_loop].
        replace (Nat.ltb i (List.length src)) with true
          by (symmetry; apply Nat.ltb_lt; lia).
        rewrite Hn0.
        change (IsSpace 46 || IsControl 46) with false.
        change (46 =? 91) with false. change (46 =? 46) with true.
        simpl in Hb.
        assert (E1 : skipSpaces src (i + 1) = (S i + List.length (sp_b sw))%nat).
        { rewrite Nat.add_1_r.
          apply (skipSpaces_at src (sp_b sw) _ (S i) Hs1); [lia|exact Hb|].
          simpl; apply bare_not_ws; exact (Forall_inv Hn). }
        rewrite E1.
        destruct (skipn_app_at _ _ _ _ Hs1 (ltac:(lia) : (S i <= List.length src)%nat))
          as [Hs2 Hl2].
        destruct (skipn_cons_at _ _ _ _ Hs2) as [Hn2 [_ Hlt2]].
        replace (Nat.eqb (S i + List.length (sp_b sw)) (List.length src)) with false
          by (symmetry; apply Nat.eqb_neq; lia).
        rewrite Hn2, (bare_not_paren c0 (Forall_inv Hn)).
        rewrite (parseBareName_at src (c0 :: n') (lead p tail ++ after_lead p tail) _ Hs2)
          by (first [discriminate | assumption |
              apply ws_head_not; [exact HL|exact ws_not_bare|exact Hh2]]).
        destruct (skipn_app_at _ _ _ _ Hs2 Hl2) as [Hs3 Hl3].
        rewrite (skipSpaces_at src (lead p tail) (after_lead p tail) _ Hs3 Hl3 HL Hh1).
        destruct (skipn_app_at _ _ _ _ Hs3 Hl3) as [Hs4 Hl4].
        cbv beta iota zeta.
        rewrite Nat.sub_add by lia.
        rewrite (IH Hok' f _ [] (acc ++ _)); [|simpl; lia|assumption|constructor
                |exact Hs4|simpl in *; lia].
        rewrite <- app_assoc; reflexivity.
      + (* .(func) *)
        destruct Hsg as [Hne Hn].
        destruct n as [|c0 n']; [congruence|].
        simpl in Hb, Hc, Hd.
        destruct (skipn_cons_at _ _ _ _ Hsk) as [Hn0 [Hs1 Hlt]].
        cbn [compileCore_loop].
        replace (Nat.ltb i (List.length src)) with true
          by (symmetry; apply Nat.ltb_lt; lia).
        rewrite Hn0.
        change (IsSpace 46 || IsControl 46) with false.
        change (46 =? 91) with false. change (46 =? 46) with true.
        cbv beta iota zeta.
        rewrite Nat.add_1_r.
        rewrite (skipSpaces_at src (sp_b sw) _ (S i) Hs1) by (first [lia|assumption|reflexivity]).
        destruct (skipn_app_at _ _ _ _ Hs1 (ltac:(lia) : (S i <= List.length src)%nat))
          as [Hs2 Hl2].
        destruct (skipn_cons_at _ _ _ _ Hs2) as [Hn2 [Hs3 Hlt2]].
        replace (Nat.eqb (S i + List.length (sp_b sw)) (List.length src)) with false
          by (symmetry; apply Nat.eqb_neq; lia).
        rewrite Hn2; change (40 =? 40) with true; cbv beta iota zeta.
        rewrite <- !app_assoc in Hs3; rewrite Nat.add_1_r.
        rewrite (skipSpaces_at src (sp_c sw) _ _ Hs3)
          by (first [lia|assumption|simpl; apply bare_not_ws; exact (Forall_inv Hn)]).
        destruct (skipn_app_at _ _ _ _ Hs3 (ltac:(lia) : (S (S i + List.length (sp_b sw))
          <= List.length src)%nat)) as [Hs4 Hl4].
        rewrite (parseBareName_at src (c0 :: n') _ _ Hs4)
          by (first [discriminate | assumption |
              apply ws_head_not; [exact Hd|exact ws_not_bare|reflexivity]]).
        destruct (skipn_app_at _ _ _ _ Hs4 Hl4) as [Hs5 Hl5].
        rewrite (skipSpaces_at src (sp_d sw) _ _ Hs5) by (first [lia|assumption|reflexivity]).
        destruct (skipn_app_at _ _ _ _ Hs5 Hl5) as [Hs6 Hl6].
        destruct (skipn_cons_at _ _ _ _ Hs6) as [Hn6 [Hs7 Hlt6]].
        cbv beta iota zeta.
        rewrite Hn6.
        match goal with |- context [Nat.eqb ?a (List.length src)] =>
          replace (Nat.eqb a (List.length src)) with false
            by (symmetry; apply Nat.eqb_neq; lia) end.
        change (negb (41 =? 41)) with false; cbv beta iota.
        rewrite Nat.add_1_r.
        rewrite (IH Hok' f _ (lead p tail) (acc ++ _)); [|lia|lia|assumption
                |exact Hs7|simpl in *; lia].
        rewrite <- app_assoc; reflexivity.
      + (* [digits] *)
        destruct Hsg as [Hne [Hdg Hv]].
        destruct d as [|c0 d']; [congruence|].
        simpl in Hb, Hc, Hd.
        destruct (skipn_cons_at _ _ _ _ Hsk) as [Hn0 [Hs1 Hlt]].
        cbn [compileCore_loop].
        replace (Nat.ltb i (List.length src)) with true
          by (symmetry; apply Nat.ltb_lt; lia).
        rewrite Hn0.
        change (IsSpace 91 || IsControl 91) with false.
        change (91 =? 91) with true.
        cbv beta iota zeta.
        rewrite Nat.add_1_r.
        rewrite (skipSpaces_at src (sp_b sw) _ (S i) Hs1)
          by (first [lia|assumption|simpl; apply digit_not_ws; exact (Forall_inv Hdg)]).
        destruct (skipn_app_at _ _ _ _ Hs1 (ltac:(lia) : (S i <= List.length src)%nat))
          as [Hs2 Hl2].
        destruct (skipn_cons_at _ _ _ _ Hs2) as [Hn2 [_ Hlt2]].
        replace (Nat.eqb (S i + List.length (sp_b sw)) (List.length src)) with false
          by (symmetry; apply Nat.eqb_neq; lia).
        rewrite Hn2, (Forall_inv Hdg); cbv beta iota.
        rewrite (parseNumber_at src (c0 :: d') _ (S i + List.length (sp_b sw)) (ltac:(lia)) Hs2)
          by (first [discriminate | assumption |
              apply ws_head_not; [exact Hc|exact ws_not_digit|reflexivity]]).
        rewrite (slice_at src (c0 :: d') _ _ Hs2), string_of_runes_digits by assumption.
        rewrite ParseInt_digits by assumption.
        destruct (skipn_app_at _ _ _ _ Hs2 Hl2) as [Hs3 Hl3].
        rewrite Bool.orb_true_l; cbv beta iota.
        rewrite (skipSpaces_at src (sp_c sw) _ _ Hs3) by (first [lia|assumption|reflexivity]).
        destruct (skipn_app_at _ _ _ _ Hs3 Hl3) as [Hs4 Hl4].
        destruct (skipn_cons_at _ _ _ _ Hs4) as [Hn4 [Hs5 Hlt4]].
        cbv beta iota zeta.
        rewrite Hn4.
        match goal with |- context [Nat.eqb ?a (List.length src)] =>
          replace (Nat.eqb a (List.length src)) with false
            by (symmetry; apply Nat.eqb_neq; lia) end.
        change (negb (93 =? 93)) with false; cbv beta iota.
        rewrite Nat.add_1_r.
        rewrite (IH Hok' f _ (lead p tail) (acc ++ _)); [|lia|lia|assumption
                |exact Hs5|simpl in *; lia].
        rewrite <- app_assoc; reflexivity.
      + (* ['quoted'] *)
        destruct Hsg as [Hq [nm Hnm]].
        simpl in Hb, Hc, Hd.
        destruct (skipn_cons_at _ _ _ _ Hsk) as [Hn0 [Hs1 Hlt]].
        cbn [compileCore_loop].
        replace (Nat.ltb i (List.length src)) with true
          by (symmetry; apply Nat.ltb_lt; lia).
        rewrite Hn0.
        change (IsSpace 91 || IsControl 91) with false.
        change (91 =? 91) with true.
        cbv beta iota zeta.
        rewrite Nat.add_1_r.
        rewrite (skipSpaces_at src (sp_b sw) _ (S i) Hs1)
          by (first [lia|assumption|destruct Hq; subst; reflexivity]).
        destruct (skipn_app_at _ _ _ _ Hs1 (ltac:(lia) : (S i <= List.length src)%nat))
          as [Hs2 Hl2].
        destruct (skipn_cons_at _ _ _ _ Hs2) as [Hn2 [Hs3 Hlt2]].
        replace (Nat.eqb (S i + List.length (sp_b sw)) (List.length src)) with false
          by (symmetry; apply Nat.eqb_neq; lia).
        rewrite Hn2.
        replace (isDecDigit q || (q =? 45)) with false by (destruct Hq; subst; reflexivity).
        replace ((q =? 39) || (q =? 34)) with true by (destruct Hq; subst; reflexivity).
        cbv beta iota.
        rewrite Nat.add_1_r.
        rewrite <- !app_assoc in Hs3.
        assert (Hl3 : (S (S i + List.length (sp_b sw)) <= List.length src)%nat) by lia.
        rewrite (shift_parseQuotedName src body _ _ q nm _ Hs3 Hl3 Hnm).
        destruct (skipn_app_at _ _ _ _ Hs3 Hl3) as [Hs4 Hl4].
        rewrite (skipSpaces_at src (sp_c sw) _ _ Hs4) by (first [lia|assumption|reflexivity]).
        destruct (skipn_app_at _ _ _ _ Hs4 Hl4) as [Hs5 Hl5].
        destruct (skipn_cons_at _ _ _ _ Hs5) as [Hn5 [Hs6 Hlt5]].
        cbv beta iota zeta.
        rewrite Hn5.
        match goal with |- context [Nat.eqb ?a (List.length src)] =>
          replace (Nat.eqb a (List.length src)) with false
            by (symmetry; apply Nat.eqb_neq; lia) end.
        change (negb (93 =? 93)) with false; cbv beta iota.
        rewrite Nat.add_1_r.
        rewrite (IH Hok' f _ (lead p tail) (acc ++ _)); [|lia|lia|assumption
                |exact Hs6|simpl in *; lia].
        rewrite <- app_assoc; simpl; rewrite Hnm; reflexivity. }
    destruct w as [|c w'].
    + apply Hmain; assumption.
    + destruct fuel as [|f]; [lia|].
      destruct (after_lead_head ((sg, sw) :: p) tail) as [Hh1 _].
      rewrite (compileCore_loop_ws src (c :: w') _ i f acc Hsk Hle)
        by (first [discriminate|assumption]).
      destruct (skipn_app_at _ _ _ _ Hsk Hle) as [Hs2 Hl2].
      apply Hmain; simpl in *; lia || assumption.
Qed.

End Render.

Lemma Compile_render (p : list (segment * spacing)) (tail : list rune) :
  segs_ok p -> ws_run tail ->
  Compile (render_path p tail) = CompileOk (mkCompiled (map (fun x => segment_ast (fst x)) p)).
Proof.
  intros Hok Htail.
  unfold Compile, compileCore, render_path; cbn [app].
  change (negb (36 =? 36)) with false; cbv beta iota.
  rewrite <- (app_nil_l (map _ p)).
  apply (compileCore_loop_render _ tail Htail p Hok _ 1 (lead p tail) []);
    simpl; try lia.
  - apply lead_ws; assumption.
  - apply render_segments_split.
Qed.

(** ** Further facts about the scanners, the compiler and the evaluator *)

Lemma query_loop_not_NotRead (l : list ast) (v : value) :
  query_loop l v <> QErr QE_NotRead.
Proof.
  revert v; induction l as [|a l IH]; intro v; simpl; [discriminate|].
  destruct (queryStep v a) eqn:E; [apply IH| |discriminate].
  intros H; injection H as ->; revert E.
  unfold queryStep; destruct v; try discriminate;
    repeat match goal with
    | |- context [match ?x with _ => _ end] => destruct x
    end; discriminate.
Qed.

Lemma skipSpaces_loop_spec (rest : list rune) (i : nat) :
  match skipSpaces_loop rest i with
  | Some k => (i <= k < i + List.length rest)%nat
              /\ (forall j, (i <= j < k)%nat -> is_ws (nth (j - i) rest 0) = true)
              /\ is_ws (nth (k - i) rest 0) = false
  | None => forall j, (j < List.length rest)%nat -> is_ws (nth j rest 0) = true
  end.
Proof.
  revert i; induction rest as [|c rest IH]; intro i; simpl.
  - intros j Hj; simpl in Hj; lia.
  - unfold is_ws.
    destruct (IsSpace c || IsControl c) eqn:Ec; simpl.
    + specialize (IH (S i)).
      assert (Hn : negb (IsSpace c) && negb (IsControl c) = false)
        by (destruct (IsSpace c), (IsControl c); simpl in *; congruence).
      rewrite Hn.
      destruct (skipSpaces_loop rest (S i)) as [k|].
      * destruct IH as [H1 [H2 H3]].
        split; [lia|split].
        -- intros j Hj.
           destruct (Nat.eq_dec j i) as [->|Hne]; [rewrite Nat.sub_diag; exact Ec|].
           replace (j - i)%nat with (S (j - S i)) by lia; apply H2; lia.
        -- replace (k - i)%nat with (S (k - S i)) by lia; exact H3.
      * intros [|j] Hj; [exact Ec|apply IH; lia].
    + assert (Hn : negb (IsSpace c) && negb (IsControl c) = true)
        by (destruct (IsSpace c), (IsControl c); simpl in *; congruence).
      rewrite Hn; split; [lia|split].
      * intros j Hj; lia.
      * rewrite Nat.sub_diag; exact Ec.
Qed.

Lemma parseBareName_loop_split (rest : list rune) (i : nat) (buf : list rune) :
  exists t r, rest = t ++ r /\ Forall (fun c => bare_char c = true) t
  /\ head_not bare_char r
  /\ parseBareName_loop rest i buf = (buf ++ t, (i + List.length t)%nat).
Proof.
  revert i buf; induction rest as [|c rest IH]; intros i buf.
  - exists [], []; repeat split; [constructor|]; simpl; rewrite app_nil_r, Nat.add_0_r;
      reflexivity.
  - simpl; destruct (bare_char c) eqn:Ec.
    + pose proof Ec as Ec'; unfold bare_char, is_ws in Ec.
      destruct (IsSpace c || IsControl c), (isNamePunct c); simpl in Ec; try discriminate.
      destruct (IH (S i) (buf ++ [c])) as [t [r [H1 [H2 [H3 H4]]]]].
      exists (c :: t), r; split; [simpl; rewrite H1; reflexivity|].
      split; [constructor; [exact Ec'|exact H2]|].
      split; [exact H3|].
      rewrite H4, <- app_assoc; simpl; f_equal; lia.
    + exists [], (c :: rest); split; [reflexivity|split; [constructor|split; [exact Ec|]]].
      unfold bare_char, is_ws in Ec; rewrite app_nil_r, Nat.add_0_r.
      destruct (IsSpace c || IsControl c), (isNamePunct c); simpl in Ec; try discriminate;
        reflexivity.
Qed.

Lemma parseHex_gt (src : list rune) (s n : nat) : parseHex src s = Some n -> (s < n)%nat.
Proof.
  unfold parseHex; intros H.
  assert (Hle : forall X k, (k <= parseHex_loop X k)%nat).
  { induction X as [|c X IHX]; intro k; simpl; [lia|].
    destruct (isHexDigit c); [specialize (IHX (S k)); lia|lia]. }
  specialize (Hle (skipn s src) s).
  destruct (Nat.eqb (parseHex_loop (skipn s src) s) s) eqn:E; [discriminate|].
  injection H as <-; apply Nat.eqb_neq in E; lia.
Qed.

Lemma parseQuotedName_loop_closing (fuel : nat) (src : list rune) (cc : rune) :
  forall i buf nm e, parseQuotedName_loop fuel src cc i buf = Some (nm, e) ->
  (i < e <= List.length src)%nat /\ nth (e - 1) src 0 = cc.
Proof.
  induction fuel as [|f IH]; intros i buf nm e H; [discriminate|].
  cbn [parseQuotedName_loop] in H.
  destruct (Nat.ltb i (List.length src)) eqn:Ei; [|discriminate].
  apply Nat.ltb_lt in Ei.
  destruct (nth i src 0 =? cc) eqn:Ec.
  - injection H as _ <-; apply Z.eqb_eq in Ec.
    split; [lia|]; replace (i + 1 - 1)%nat with i by lia; exact Ec.
  - repeat match type of H with
    | context [match ?x with Some _ => _ | None => _ end] =>
        let E := fresh "E" in destruct x eqn:E
    | context [if ?b then _ else _] =>
        let E := fresh "E" in destruct b eqn:E
    end; try discriminate H;
    repeat match goal with Hx : parseHex _ _ = Some _ |- _ => apply parseHex_gt in Hx end;
    (destruct (IH _ _ _ _ H) as [Hj Hq]; split; [lia|exact Hq]).
Qed.

Lemma parseQuotedName_loop_quoteName (q : rune) (src r : list rune) (n : list rune) :
  (q = 39 \/ q = 34) ->
  forall fuel i buf, skipn i src = quoteName q n ++ q :: r ->
  (List.length (quoteName q n) < fuel)%nat ->
  parseQuotedName_loop fuel src q i buf
  = Some (string_of_runes (buf ++ n), (i + List.length (quoteName q n) + 1)%nat).
Proof.
  intros Hq; induction n as [|c n IH]; intros fuel i buf Hs Hf;
    destruct fuel as [|f]; try (simpl in Hf; lia).
  - simpl in Hs; destruct (skipn_cons_at _ _ _ _ Hs) as [Hn [_ Hlt]].
    cbn [parseQuotedName_loop].
    replace (Nat.ltb i (List.length src)) with true by (symmetry; apply Nat.ltb_lt; lia).
    rewrite Hn, Z.eqb_refl, app_nil_r; simpl; rewrite Nat.add_0_r; reflexivity.
  - assert (Hq92 : (92 =? q) = false) by (destruct Hq; subst; reflexivity).
    cbn [quoteName] in Hs, Hf |- *.
    destruct ((c =? q) || (c =? 92)) eqn:Ec.
    + simpl in Hs; destruct (skipn_cons_at _ _ _ _ Hs) as [Hn [Hs1 Hlt]].
      destruct (skipn_cons_at _ _ _ _ Hs1) as [Hn1 [Hs2 Hlt1]].
      cbn [parseQuotedName_loop].
      replace (Nat.ltb i (List.length src)) with true by (symmetry; apply Nat.ltb_lt; lia).
      rewrite Hn, Hq92.
      change (92 =? 92) with true; cbv beta iota zeta.
      replace (Nat.eqb (i + 1) (List.length src)) with false
        by (symmetry; apply Nat.eqb_neq; lia).
      rewrite Nat.add_1_r, Hn1.
      replace ((c =? 92) || (c =? 34) || (c =? 39) || (c =? 96)) with true
        by (apply orb_true_iff in Ec; destruct Ec as [E|E]; apply Z.eqb_eq in E; rewrite E;
            [destruct Hq as [-> | ->]|]; reflexivity).
      cbv beta iota.
      rewrite (IH f (S i + 1)%nat (buf ++ [c])); simpl in Hf |- *;
        [|rewrite Nat.add_1_r; exact Hs2|lia].
      rewrite <- app_assoc; f_equal; f_equal; lia.
    + simpl in Hs; destruct (skipn_cons_at _ _ _ _ Hs) as [Hn [Hs1 Hlt]].
      apply orb_false_iff in Ec; destruct Ec as [Ecq Ec92].
      cbn [parseQuotedName_loop].
      replace (Nat.ltb i (List.length src)) with true by (symmetry; apply Nat.ltb_lt; lia).
      rewrite Hn, Ecq, Ec92; cbv beta iota zeta.
      rewrite (IH f (i + 1)%nat (buf ++ [c])); simpl in Hf |- *;
        [|rewrite Nat.add_1_r; exact Hs1|lia].
      rewrite <- app_assoc; f_equal; f_equal; lia.
Qed.

Lemma eqb_add_l (a x y : nat) : Nat.eqb (a + x) (a + y) = Nat.eqb x y.
Proof. destruct (Nat.eqb_spec x y), (Nat.eqb_spec (a + x) (a + y)); lia. Qed.
Lemma ltb_add_l (a x y : nat) : Nat.ltb (a + x) (a + y) = Nat.ltb x y.
Proof. destruct (Nat.ltb_spec x y), (Nat.ltb_spec (a + x) (a + y)); lia. Qed.
Lemma leb_add_l (a x y : nat) : Nat.leb (a + x) (a + y) = Nat.leb x y.
Proof. destruct (Nat.leb_spec x y), (Nat.leb_spec (a + x) (a + y)); lia. Qed.

Lemma parseHex_loop_offset (X : list rune) (k d : nat) :
  parseHex_loop X (d + k) = (d + parseHex_loop X k)%nat.
Proof.
  revert k; induction X as [|c X IH]; intro k; simpl; [reflexivity|].
  destruct (isHexDigit c); [|reflexivity].
  rewrite <- IH; f_equal; lia.
Qed.

Lemma parseHex_loop_ge (X : list rune) (k : nat) : (k <= parseHex_loop X k)%nat.
Proof.
  revert k; induction X as [|c X IH]; intro k; simpl; [lia|].
  destruct (isHexDigit c); [specialize (IH (S k)); lia|lia].
Qed.

(** The recursive case of [off_parseQuotedName_loop]. *)
Ltac off_rec IH H s :=
  match type of H with
  | parseQuotedName_loop _ _ _ ?p _ = _ =>
      replace p with (s + (p - s))%nat in H by lia;
      let e' := fresh "e'" in let He := fresh "He" in let H' := fresh "H'" in
      destruct (IH _ _ _ _ _ H) as [e' [He H']]; exists e'; split; [exact He|];
      rewrite <- H'; f_equal; lia
  end.

(** Two sources that agree from offsets [s] and [t] on. *)
Section Offset.
Variables (X Y : list rune) (s t : nat).
Hypothesis Hxy : skipn s X = skipn t Y.
Hypothesis Hs : (s <= List.length X)%nat.
Hypothesis Ht : (t <= List.length Y)%nat.

Lemma off_len : (List.length X - s = List.length Y - t)%nat.
Proof. rewrite <- !length_skipn, Hxy; reflexivity. Qed.

Lemma off_nth (k : nat) : nth (s + k) X 0 = nth (t + k) Y 0.
Proof. rewrite <- !nth_skipn, Hxy; reflexivity. Qed.

Lemma off_skipn (k : nat) : skipn (s + k) X = skipn (t + k) Y.
Proof. rewrite (Nat.add_comm s), (Nat.add_comm t), <- !skipn_skipn, Hxy; reflexivity. Qed.

Lemma off_slice (a b : nat) : slice X (s + a) (s + b) = slice Y (t + a) (t + b).
Proof.
  clear Hs Ht; unfold slice; rewrite off_skipn.
  replace (s + b - (s + a))%nat with (b - a)%nat by lia.
  replace (t + b - (t + a))%nat with (b - a)%nat by lia; reflexivity.
Qed.

Lemma off_parseHex (j e : nat) :
  parseHex X (s + j) = Some e ->
  exists e', e = (s + e')%nat /\ parseHex Y (t + j) = Some (t + e')%nat.
Proof.
  unfold parseHex; rewrite off_skipn.
  set (R := skipn (t + j) Y).
  rewrite !parseHex_loop_offset with (k := j).
  rewrite !eqb_add_l.
  destruct (Nat.eqb (parseHex_loop R j) j); [discriminate|].
  intros [= <-]; eexists; split; reflexivity.
Qed.

Lemma off_parseQuotedName_loop (fuel : nat) : forall (q : rune) (i : nat)
  (buf : list rune) (nm : gostring) (e : nat),
  parseQuotedName_loop fuel X q (s + i) buf = Some (nm, e) ->
  exists e', e = (s + e')%nat /\ parseQuotedName_loop fuel Y q (t + i) buf = Some (nm, t + e')%nat.
Proof.
  pose proof off_len as HL.
  assert (HX : List.length X = (s + (List.length X - s))%nat) by lia.
  assert (HY : List.length Y = (t + (List.length X - s))%nat) by lia.
  set (L := (List.length X - s)%nat) in HX, HY.
  induction fuel as [|f IH]; intros q i buf nm e H; [discriminate|].
  cbn [parseQuotedName_loop] in H |- *.
  rewrite HX in H; rewrite HY.
  rewrite ltb_add_l in H |- *.
  destruct (Nat.ltb i L); [|discriminate].
  rewrite off_nth in H.
  destruct (nth (t + i) Y 0 =? q).
  { injection H as <- <-; exists (i + 1)%nat; split; [lia|do 2 f_equal; lia]. }
  destruct (nth (t + i) Y 0 =? 92).
  2: { off_rec IH H s. }
  rewrite <- Nat.add_assoc, eqb_add_l in H |- *.
  rewrite <- Nat.add_assoc, off_nth in H.
  rewrite <- Nat.add_assoc.
  destruct (Nat.eqb (i + 1) L); [discriminate|].
  do 7 (match goal with
        | H : context [if ?b then _ else _] |- context [if ?b then _ else _] =>
            destruct b; [off_rec IH H s|]
        end).
  destruct ((nth (t + (i + 1)) Y 0 =? 120) || (nth (t + (i + 1)) Y 0 =? 88)).
  { repeat rewrite <- Nat.add_assoc in H; repeat rewrite <- Nat.add_assoc;
    rewrite leb_add_l in H |- *.
    destruct (Nat.leb L (i + 3)); [discriminate|].
    rewrite off_slice in H.
    destruct (ParseInt (string_of_runes (slice Y (t + (i + 2)) (t + (i + 4)))) 16);
      [|discriminate].
    off_rec IH H s. }
  destruct ((nth (t + (i + 1)) Y 0 =? 117) || (nth (t + (i + 1)) Y 0 =? 85)).
  2: { off_rec IH H s. }
  repeat rewrite <- Nat.add_assoc in H; repeat rewrite <- Nat.add_assoc;
    rewrite leb_add_l in H |- *.
  destruct (Nat.leb L (i + 2)); [discriminate|].
  rewrite off_nth in H.
  destruct (nth (t + (i + 2)) Y 0 =? 123).
  - destruct (parseHex X (s + (i + 3))) as [e1|] eqn:Eh; [|discriminate].
    destruct (off_parseHex _ _ Eh) as [e1' [-> Eh']]; rewrite Eh'.
    rewrite ltb_add_l in H |- *.
    destruct (Nat.ltb (i + 9) e1'); [discriminate|].
    rewrite off_slice in H.
    destruct (ParseInt (string_of_runes (slice Y (t + (i + 3)) (t + e1'))) 16); [|discriminate].
    rewrite leb_add_l in H |- *.
    destruct (Nat.leb L e1'); [discriminate|].
    rewrite off_nth in H.
    destruct (negb (nth (t + e1') Y 0 =? 125)); [discriminate|].
    off_rec IH H s.
  - repeat rewrite <- Nat.add_assoc in H; repeat rewrite <- Nat.add_assoc;
    rewrite leb_add_l in H |- *.
    destruct (Nat.leb L (i + 5)); [discriminate|].
    destruct (parseHex X (s + (i + 2))) as [e1|] eqn:Eh; [|discriminate].
    destruct (off_parseHex _ _ Eh) as [e1' [-> Eh']]; rewrite Eh'.
    rewrite eqb_add_l in H |- *.
    destruct (Nat.eqb e1' (i + 6)) eqn:E6; cbn [negb] in H |- *; [|discriminate].
    apply Nat.eqb_eq in E6.
    rewrite off_slice in H.
    destruct (ParseInt (string_of_runes (slice Y (t + (i + 2)) (t + e1'))) 16); [|discriminate].
    off_rec IH H s.
Qed.
End Offset.

Lemma off_parseQuotedName (X Y : list rune) (s t : nat) (q : rune) (j : nat) :
  skipn s X = skipn t Y -> (s <= List.length X)%nat -> (t <= List.length Y)%nat ->
  (parseQuotedName X q (s + j) = None /\ parseQuotedName Y q (t + j) = None)
  \/ exists nm e, parseQuotedName X q (s + j) = Some (nm, s + e)%nat
                  /\ parseQuotedName Y q (t + j) = Some (nm, t + e)%nat.
Proof.
  intros Hxy Hs Ht; unfold parseQuotedName.
  pose proof (off_len X Y s t Hxy) as HL.
  replace (List.length Y - (t + j))%nat with (List.length X - (s + j))%nat by lia.
  destruct (parseQuotedName_loop _ X q (s + j) []) as [[nm e]|] eqn:E.
  - destruct (off_parseQuotedName_loop X Y s t Hxy Hs Ht _ _ _ _ _ _ E) as [e' [-> E']].
    right; exists nm, e'; split; [reflexivity|exact E'].
  - destruct (parseQuotedName_loop _ Y q (t + j) []) as [[nm e]|] eqn:E'.
    + destruct (off_parseQuotedName_loop Y X t s (eq_sym Hxy) Ht Hs _ _ _ _ _ _ E') as [e' [_ E'']].
      congruence.
    + left; split; reflexivity.
Qed.

Lemma skipSpaces_loop_shift (R : list rune) (d k : nat) :
  skipSpaces_loop R (d + k) = option_map (Nat.add d) (skipSpaces_loop R k).
Proof.
  revert k; induction R as [|c R IH]; intro k; simpl; [reflexivity|].
  destruct (negb (IsSpace c) && negb (IsControl c)); [reflexivity|].
  rewrite <- IH; f_equal; lia.
Qed.

Lemma parseBareName_loop_shift (R : list rune) (d k : nat) (buf : list rune) :
  parseBareName_loop R (d + k) buf
  = (fst (parseBareName_loop R k buf), (d + snd (parseBareName_loop R k buf))%nat).
Proof.
  revert k buf; induction R as [|c R IH]; intros k buf; simpl; [reflexivity|].
  destruct (IsSpace c || IsControl c); [reflexivity|].
  destruct (isNamePunct c); [reflexivity|].
  rewrite <- IH; f_equal; lia.
Qed.

Lemma parseNumber_loop_shift (R : list rune) (d k : nat) :
  (1 <= k)%nat -> parseNumber_loop R (d + k) = (d + parseNumber_loop R k)%nat.
Proof.
  revert k; induction R as [|c R IH]; intros k Hk; simpl; [reflexivity|].
  replace (Nat.eqb (d + k) 0) with false by (symmetry; apply Nat.eqb_neq; lia).
  replace (Nat.eqb k 0) with false by (symmetry; apply Nat.eqb_neq; lia).
  simpl; destruct (isDecDigit c); [|reflexivity].
  rewrite <- IH by lia; f_equal; lia.
Qed.

Lemma parseNumber_loop_ge (R : list rune) (k : nat) : (k <= parseNumber_loop R k)%nat.
Proof.
  revert k; induction R as [|c R IH]; intro k; simpl; [lia|].
  destruct (Nat.eqb k 0 && (c =? 45)); [specialize (IH (S k)); lia|].
  destruct (isDecDigit c); [specialize (IH (S k)); lia|lia].
Qed.

Section OffsetLoop.
Variables (X Y : list rune) (s t : nat).
Hypothesis Hxy : skipn s X = skipn t Y.
Hypothesis Hs : (1 <= s <= List.length X)%nat.
Hypothesis Ht : (1 <= t <= List.length Y)%nat.

Lemma off_skipSpaces (j : nat) :
  exists m, skipSpaces X (s + j) = (s + m)%nat /\ skipSpaces Y (t + j) = (t + m)%nat.
Proof.
  pose proof (off_len X Y s t Hxy) as HL.
  unfold skipSpaces; rewrite (off_skipn X Y s t Hxy).
  rewrite !skipSpaces_loop_shift.
  destruct (skipSpaces_loop (skipn (t + j) Y) j) as [k|]; simpl.
  - exists k; split; reflexivity.
  - exists (List.length X - s)%nat; split; lia.
Qed.

Lemma off_parseBareName (j : nat) :
  (parseBareName X (s + j) = None /\ parseBareName Y (t + j) = None)
  \/ exists nm m, parseBareName X (s + j) = Some (nm, s + m)%nat
                  /\ parseBareName Y (t + j) = Some (nm, t + m)%nat.
Proof.
  unfold parseBareName; rewrite (off_skipn X Y s t Hxy).
  rewrite !parseBareName_loop_shift.
  destruct (parseBareName_loop (skipn (t + j) Y) j []) as [[|c b] k]; simpl.
  - left; split; reflexivity.
  - right; eexists _, k; split; reflexivity.
Qed.

Lemma off_parseNumber (j : nat) :
  (parseNumber X (s + j) = None /\ parseNumber Y (t + j) = None)
  \/ exists m, parseNumber X (s + j) = Some (s + m)%nat
               /\ parseNumber Y (t + j) = Some (t + m)%nat.
Proof.
  unfold parseNumber; rewrite (off_skipn X Y s t Hxy).
  set (R := skipn (t + j) Y).
  replace (s + j)%nat with (s - 1 + (1 + j))%nat by lia.
  replace (t + j)%nat with (t - 1 + (1 + j))%nat by lia.
  rewrite (parseNumber_loop_shift R (s - 1)), (parseNumber_loop_shift R (t - 1)) by lia.
  rewrite !eqb_add_l.
  pose proof (parseNumber_loop_ge R (1 + j)).
  destruct (Nat.eqb (parseNumber_loop R (1 + j)) (1 + j)).
  - left; split; reflexivity.
  - right; exists (parseNumber_loop R (1 + j) - 1)%nat; split; f_equal; lia.
Qed.

Lemma off_compileCore_loop (f : nat) : forall (i : nat) (acc : list ast),
  compileCore_loop f X (s + i) acc = compileCore_loop f Y (t + i) acc.
Proof.
  pose proof (off_len X Y s t Hxy) as HL.
  assert (HX : List.length X = (s + (List.length X - s))%nat) by lia.
  assert (HY : List.length Y = (t + (List.length X - s))%nat) by lia.
  set (L := (List.length X - s)%nat) in HX, HY.
  assert (Hn : forall k, nth (s + k) X 0 = nth (t + k) Y 0) by apply (off_nth X Y s t Hxy).
  assert (Hsl : forall a b, slice X (s + a) (s + b) = slice Y (t + a) (t + b))
    by apply (off_slice X Y s t Hxy).
  induction f as [|f IH]; intros i acc; [reflexivity|].
  cbn [compileCore_loop]; rewrite HX, HY, !ltb_add_l.
  destruct (Nat.ltb i L); [|reflexivity].
  rewrite Hn, <- !Nat.add_assoc.
  destruct (IsSpace (nth (t + i) Y 0) || IsControl (nth (t + i) Y 0)).
  { destruct (off_skipSpaces (i + 1)) as [m [-> ->]].
    replace (s + m - 1 + 1)%nat with (s + m)%nat by lia.
    replace (t + m - 1 + 1)%nat with (t + m)%nat by lia.
    apply IH. }
  destruct (off_skipSpaces (i + 1)) as [m [-> ->]].
  rewrite !eqb_add_l, Hn.
  destruct (nth (t + i) Y 0 =? 91).
  { destruct (Nat.eqb m L); [reflexivity|].
    destruct (isDecDigit (nth (t + m) Y 0) || (nth (t + m) Y 0 =? 45)).
    - destruct (off_parseNumber m) as [[-> ->]|[m2 [-> ->]]]; [reflexivity|].
      rewrite Hsl.
      destruct (ParseInt (string_of_runes (slice Y (t + m) (t + m2))) 10); [|reflexivity].
      cbv iota beta.
      destruct (off_skipSpaces m2) as [m3 [-> ->]].
      rewrite !eqb_add_l, Hn.
      destruct (Nat.eqb m3 L); [reflexivity|].
      destruct (negb (nth (t + m3) Y 0 =? 93)); [reflexivity|].
      rewrite <- !Nat.add_assoc; apply IH.
    - destruct ((nth (t + m) Y 0 =? 39) || (nth (t + m) Y 0 =? 34)); [|reflexivity].
      rewrite <- !Nat.add_assoc.
      destruct (off_parseQuotedName X Y s t (nth (t + m) Y 0) (m + 1) Hxy ltac:(lia) ltac:(lia))
        as [[-> ->]|[nm [m2 [-> ->]]]]; [reflexivity|].
      cbv iota beta.
      destruct (off_skipSpaces m2) as [m3 [-> ->]].
      rewrite !eqb_add_l, Hn.
      destruct (Nat.eqb m3 L); [reflexivity|].
      destruct (negb (nth (t + m3) Y 0 =? 93)); [reflexivity|].
      rewrite <- !Nat.add_assoc; apply IH. }
  destruct (nth (t + i) Y 0 =? 46); [|reflexivity].
  destruct (Nat.eqb m L); [reflexivity|].
  destruct (nth (t + m) Y 0 =? 40).
  - rewrite <- !Nat.add_assoc.
    destruct (off_skipSpaces (m + 1)) as [m1 [-> ->]].
    destruct (off_parseBareName m1) as [[-> ->]|[nm [m2 [-> ->]]]]; [reflexivity|].
    destruct (off_skipSpaces m2) as [m3 [-> ->]].
    rewrite !eqb_add_l, Hn.
    destruct (Nat.eqb m3 L); [reflexivity|].
    destruct (negb (nth (t + m3) Y 0 =? 41)); [reflexivity|].
    rewrite <- !Nat.add_assoc; apply IH.
  - destruct (off_parseBareName m) as [[-> ->]|[nm [m2 [-> ->]]]]; [reflexivity|].
    destruct (off_skipSpaces m2) as [m3 [-> ->]].
    replace (s + m3 - 1 + 1)%nat with (s + m3)%nat by lia.
    replace (t + m3 - 1 + 1)%nat with (t + m3)%nat by lia.
    apply IH.
Qed.
End OffsetLoop.

(** Bounds on the scanners' results. *)

Lemma skipSpaces_bounds (src : list rune) (k : nat) :
  (Nat.min k (List.length src) <= skipSpaces src k <= List.length src)%nat.
Proof.
  unfold skipSpaces.
  pose proof (skipSpaces_loop_spec (skipn k src) k) as H.
  rewrite length_skipn in H.
  destruct (skipSpaces_loop (skipn k src) k) as [j|]; [destruct H as [H _]|]; lia.
Qed.

Lemma parseNumber_loop_le (R : list rune) (k : nat) :
  (parseNumber_loop R k <= k + List.length R)%nat.
Proof.
  revert k; induction R as [|c R IH]; intro k; simpl; [lia|].
  destruct (Nat.eqb k 0 && (c =? 45)); [specialize (IH (S k)); lia|].
  destruct (isDecDigit c); [specialize (IH (S k)); lia|lia].
Qed.

Lemma parseNumber_bounds (src : list rune) (k e : nat) :
  parseNumber src k = Some e -> (k < e <= List.length src)%nat.
Proof.
  unfold parseNumber.
  pose proof (parseNumber_loop_ge (skipn k src) k).
  pose proof (parseNumber_loop_le (skipn k src) k) as Hle.
  rewrite length_skipn in Hle.
  destruct (Nat.eqb_spec (parseNumber_loop (skipn k src) k) k); [discriminate|].
  intros [= <-]; lia.
Qed.

Lemma parseBareName_bounds (src : list rune) (k : nat) (nm : gostring) (e : nat) :
  parseBareName src k = Some (nm, e) -> (k < e <= List.length src)%nat.
Proof.
  unfold parseBareName.
  destruct (parseBareName_loop_split (skipn k src) k []) as [t [r [H1 [_ [_ H4]]]]].
  rewrite H4; simpl.
  pose proof (f_equal (@List.length rune) H1) as HL.
  rewrite length_skipn, length_app in HL.
  destruct t; [discriminate|]; intros [= _ <-]; simpl in *; lia.
Qed.

Lemma parseQuotedName_bounds (src : list rune) (q : rune) (k : nat) (nm : gostring) (e : nat) :
  parseQuotedName src q k = Some (nm, e) -> (k < e <= List.length src)%nat.
Proof.
  unfold parseQuotedName; intros H.
  apply parseQuotedName_loop_closing in H; lia.
Qed.

Ltac pos_facts :=
  repeat match goal with
  | H : Nat.eqb _ _ = false |- _ => apply Nat.eqb_neq in H
  | H : Nat.eqb _ _ = true |- _ => apply Nat.eqb_eq in H
  | H : Nat.ltb _ _ = true |- _ => apply Nat.ltb_lt in H
  | H : Nat.ltb _ _ = false |- _ => apply Nat.ltb_ge in H
  | H : parseNumber _ _ = Some _ |- _ => apply parseNumber_bounds in H
  | H : parseBareName _ _ = Some (_, _) |- _ => apply parseBareName_bounds in H
  | H : parseQuotedName _ _ _ = Some (_, _) |- _ => apply parseQuotedName_bounds in H
  end;
  repeat match goal with
  | H : context [skipSpaces ?a ?k] |- _ =>
      let B := fresh "B" in pose proof (skipSpaces_bounds a k) as B;
      set (skipSpaces a k) in *
  | |- context [skipSpaces ?a ?k] =>
      let B := fresh "B" in pose proof (skipSpaces_bounds a k) as B;
      set (skipSpaces a k) in *
  end.

(** With enough fuel, the result of the loop does not depend on the fuel. *)
Lemma compileCore_loop_fuel (src : list rune) (F : nat) : forall (F' i : nat) (acc : list ast),
  (List.length src - i < F)%nat -> (List.length src - i < F')%nat ->
  compileCore_loop F src i acc = compileCore_loop F' src i acc.
Proof.
  induction F as [|F IH]; intros F' i acc H1 H2; [lia|].
  destruct F' as [|F']; [lia|].
  cbn [compileCore_loop].
  destruct (Nat.ltb i (List.length src)) eqn:Ei; [|reflexivity].
  repeat match goal with
  | |- context [match ?x with _ => _ end] =>
      lazymatch x with
      | compileCore_loop _ _ _ _ => fail
      | ?f ?y => destruct x eqn:?
      | _ => is_var x; destruct x eqn:?
      end
  end; try reflexivity;
  repeat match goal with H : ?p = (_, _) |- _ => is_var p; subst p end;
  apply IH; pos_facts; lia.
Qed.

Lemma compileCore_loop_acc (src : list rune) (f : nat) : forall (i : nat) (pre acc : list ast),
  compileCore_loop f src i (pre ++ acc)
  = match compileCore_loop f src i acc with
    | CompileOk (mkCompiled r) => CompileOk (mkCompiled (pre ++ r))
    | res => res
    end.
Proof.
  induction f as [|f IH]; intros i pre acc; [reflexivity|].
  cbn [compileCore_loop].
  repeat match goal with
  | |- context [match ?x with _ => _ end] =>
      lazymatch x with
      | compileCore_loop _ _ _ _ => fail
      | ?f ?y => destruct x eqn:?
      | _ => is_var x; destruct x eqn:?
      end
  end; try reflexivity;
  rewrite <- ?app_assoc; apply IH.
Qed.

Lemma skipn_nth_cons (src : list rune) (p : nat) :
  (p < List.length src)%nat -> skipn p src = nth p src 0 :: skipn (S p) src.
Proof.
  revert src; induction p as [|p IH]; intros [|c src] Hp; simpl in *; try lia;
    [reflexivity|apply IH; lia].
Qed.

Lemma skipSpaces_step (src : list rune) (p : nat) :
  (p < List.length src)%nat ->
  skipSpaces src p = if is_ws (nth p src 0) then skipSpaces src (S p) else p.
Proof.
  intros Hp; unfold skipSpaces at 1; rewrite (skipn_nth_cons src p Hp); simpl.
  unfold is_ws; destruct (IsSpace (nth p src 0)), (IsControl (nth p src 0)); reflexivity.
Qed.

(** Starting on a run of whitespace is the same as starting after it. *)
Lemma compileCore_loop_skip (src : list rune) (p F F' : nat) (acc : list ast) :
  (List.length src - p < F)%nat -> (List.length src - skipSpaces src p < F')%nat ->
  compileCore_loop F src p acc = compileCore_loop F' src (skipSpaces src p) acc.
Proof.
  intros H1 H2.
  destruct (Nat.lt_ge_cases p (List.length src)) as [Hp|Hp].
  2: { unfold skipSpaces in *; rewrite skipn_all2 in * by lia; cbn [skipSpaces_loop] in *.
       destruct F as [|F]; [lia|]; destruct F' as [|F']; [lia|]; cbn [compileCore_loop].
       replace (Nat.ltb p (List.length src)) with false by (symmetry; apply Nat.ltb_ge; lia).
       rewrite Nat.ltb_irrefl; reflexivity. }
  rewrite skipSpaces_step in H2 |- * by exact Hp.
  destruct (is_ws (nth p src 0)) eqn:Ew.
  - destruct F as [|F]; [lia|]; cbn [compileCore_loop].
    replace (Nat.ltb p (List.length src)) with true by (symmetry; apply Nat.ltb_lt; lia).
    unfold is_ws in Ew; rewrite Ew.
    pose proof (skipSpaces_bounds src (p + 1)).
    rewrite (Nat.add_1_r p) in *.
    replace (skipSpaces src (S p) - 1 + 1)%nat with (skipSpaces src (S p)) by lia.
    apply compileCore_loop_fuel; lia.
  - apply compileCore_loop_fuel; lia.
Qed.

(** A source followed by more text: what the scanners see is unchanged. *)
Section Prefix.
Variables (A b : list rune).
Hypothesis Hb : head_not bare_char b.

Lemma skipSpaces_loop_app (U V : list rune) (i : nat) :
  skipSpaces_loop (U ++ V) i
  = match skipSpaces_loop U i with
    | Some j => Some j
    | None => skipSpaces_loop V (i + List.length U)
    end.
Proof.
  clear Hb; revert i; induction U as [|c U IH]; intro i; simpl.
  - rewrite Nat.add_0_r; reflexivity.
  - destruct (negb (IsSpace c) && negb (IsControl c)); [reflexivity|].
    rewrite IH; replace (i + S (List.length U))%nat with (S i + List.length U)%nat by lia;
    reflexivity.
Qed.

Lemma pre_skipn (k : nat) : (k <= List.length A)%nat -> skipn k (A ++ b) = skipn k A ++ b.
Proof.
  intros Hk; rewrite skipn_app; replace (k - List.length A)%nat with 0%nat by lia; reflexivity.
Qed.

Lemma pre_nth (k : nat) : (k < List.length A)%nat -> nth k (A ++ b) 0 = nth k A 0.
Proof. intros Hk; apply app_nth1; exact Hk. Qed.

Lemma pre_skip_lt (k : nat) :
  (skipSpaces A k < List.length A)%nat -> skipSpaces (A ++ b) k = skipSpaces A k.
Proof.
  unfold skipSpaces; intros H.
  destruct (Nat.le_gt_cases k (List.length A)) as [Hk|Hk].
  2: { rewrite skipn_all2 in H by lia; simpl in H; lia. }
  rewrite pre_skipn, skipSpaces_loop_app by exact Hk.
  destruct (skipSpaces_loop (skipn k A) k); [reflexivity|lia].
Qed.

Lemma pre_skip_end (k : nat) :
  (k <= List.length A)%nat -> skipSpaces A k = List.length A ->
  skipSpaces (A ++ b) k = skipSpaces (A ++ b) (List.length A).
Proof.
  unfold skipSpaces; intros Hk H.
  pose proof (skipSpaces_loop_spec (skipn k A) k) as Hs.
  rewrite length_skipn in Hs.
  rewrite pre_skipn, skipSpaces_loop_app by exact Hk.
  rewrite pre_skipn, skipn_all, app_nil_l by lia.
  destruct (skipSpaces_loop (skipn k A) k); [destruct Hs as [Hs _]; lia|].
  rewrite length_skipn; replace (k + (List.length A - k))%nat with (List.length A) by lia.
  reflexivity.
Qed.

Lemma pre_bare (k : nat) (nm : gostring) (e : nat) :
  parseBareName A k = Some (nm, e) -> parseBareName (A ++ b) k = Some (nm, e).
Proof.
  intros H; pose proof (parseBareName_bounds _ _ _ _ H) as He.
  revert H; unfold parseBareName.
  destruct (parseBareName_loop_split (skipn k A) k []) as [t [r [H1 [H2 [H3 H4]]]]].
  rewrite H4, pre_skipn, H1, <- app_assoc by lia.
  rewrite parseBareName_loop_app, parseBareName_loop_stop by
    (first [exact H2 | destruct r; [exact Hb|exact H3]]).
  intros H; exact H.
Qed.

Lemma parseNumber_loop_app_stop (U V : list rune) (k : nat) :
  (parseNumber_loop U k < k + List.length U)%nat ->
  parseNumber_loop (U ++ V) k = parseNumber_loop U k.
Proof.
  clear Hb; revert k; induction U as [|c U IH]; intro k; simpl; [lia|].
  destruct (Nat.eqb k 0 && (c =? 45)); [intros H; apply IH; lia|].
  destruct (isDecDigit c); [intros H; apply IH; lia|reflexivity].
Qed.

Lemma pre_num (k e : nat) :
  parseNumber A k = Some e -> (e < List.length A)%nat -> parseNumber (A ++ b) k = Some e.
Proof.
  intros H He; pose proof (parseNumber_bounds _ _ _ H) as Hb'.
  revert H; unfold parseNumber.
  rewrite pre_skipn by lia.
  destruct (Nat.eqb (parseNumber_loop (skipn k A) k) k); [discriminate|].
  intros [= E]; rewrite parseNumber_loop_app_stop; [rewrite E|rewrite E, length_skipn; lia].
  replace (Nat.eqb e k) with false by (symmetry; apply Nat.eqb_neq; lia); reflexivity.
Qed.

Lemma pre_slice (k e : nat) : (e <= List.length A)%nat -> slice (A ++ b) k e = slice A k e.
Proof.
  clear Hb; intros He; unfold slice; rewrite skipn_app, firstn_app, length_skipn.
  replace (e - k - (List.length A - k))%nat with 0%nat by lia.
  rewrite firstn_O, app_nil_r; reflexivity.
Qed.

Lemma pre_quoted (q : rune) (k : nat) (nm : gostring) (e : nat) :
  parseQuotedName A q k = Some (nm, e) -> parseQuotedName (A ++ b) q k = Some (nm, e).
Proof.
  clear Hb; unfold parseQuotedName; intros H.
  apply (shift_parseQuotedName_loop (A ++ b) A b 0 eq_refl ltac:(lia)
           (S (List.length A - k)) (S (List.length (A ++ b) - k)) q k k [] nm e) in H;
    [exact H| |reflexivity].
  rewrite length_app; lia.
Qed.

Lemma pre_skip_rel (k F G : nat) (acc : list ast) :
  (k <= List.length A)%nat ->
  (List.length (A ++ b) - skipSpaces (A ++ b) k < F)%nat ->
  (List.length (A ++ b) - skipSpaces A k < G)%nat ->
  compileCore_loop F (A ++ b) (skipSpaces (A ++ b) k) acc
  = compileCore_loop G (A ++ b) (skipSpaces A k) acc.
Proof.
  intros Hk H1 H2.
  pose proof (skipSpaces_bounds A k).
  destruct (Nat.lt_ge_cases (skipSpaces A k) (List.length A)) as [Hl|Hl].
  - rewrite pre_skip_lt in * by exact Hl; apply compileCore_loop_fuel; assumption.
  - assert (E : skipSpaces A k = List.length A) by lia.
    rewrite (pre_skip_end k Hk E) in *; rewrite E in *.
    symmetry; apply compileCore_loop_skip; assumption.
Qed.
End Prefix.

Lemma prefix_run (A b : list rune) (Hb : head_not bare_char b) (f : nat) :
  forall (i : nat) (acc r : list ast),
  (1 <= i <= List.length A)%nat ->
  compileCore_loop f A i acc = CompileOk (mkCompiled r) ->
  forall F F', (List.length (A ++ b) - i < F)%nat ->
  (List.length (A ++ b) - List.length A < F')%nat ->
  compileCore_loop F (A ++ b) i acc = compileCore_loop F' (A ++ b) (List.length A) r.
Proof.
  induction f as [|f IH]; intros i acc r Hi H F F' HF HF'; [discriminate|].
  pose proof (length_app A b) as HLS.
  cbn [compileCore_loop] in H.
  destruct (Nat.ltb_spec i (List.length A)) as [Hlt|Hge].
  2: { injection H as H; subst acc.
       replace i with (List.length A) by lia; apply compileCore_loop_fuel; lia. }
  destruct F as [|F]; [lia|]; cbn [compileCore_loop].
  replace (Nat.ltb i (List.length (A ++ b))) with true by (symmetry; apply Nat.ltb_lt; lia).
  rewrite pre_nth by exact Hlt.
  pose proof (skipSpaces_bounds A (i + 1)) as B1.
  pose proof (skipSpaces_bounds (A ++ b) (i + 1)) as B2.
  destruct (IsSpace (nth i A 0) || IsControl (nth i A 0)).
  { replace (skipSpaces A (i + 1) - 1 + 1)%nat with (skipSpaces A (i + 1)) in H by lia.
    replace (skipSpaces (A ++ b) (i + 1) - 1 + 1)%nat with (skipSpaces (A ++ b) (i + 1))
      by lia.
    rewrite (pre_skip_rel A b (i + 1) F F acc) by lia.
    eapply IH; [|exact H|..]; lia. }
  destruct (Nat.eqb_spec (skipSpaces A (i + 1)) (List.length A)) as [Est|Est].
  { destruct (nth i A 0 =? 91); [discriminate|].
    destruct (nth i A 0 =? 46); discriminate. }
  rewrite pre_skip_lt by lia.
  set (st := skipSpaces A (i + 1)) in *.
  replace (Nat.eqb st (List.length (A ++ b))) with false
    by (symmetry; apply Nat.eqb_neq; lia).
  rewrite pre_nth by lia.
  destruct (nth i A 0 =? 91).
  - destruct (isDecDigit (nth st A 0) || (nth st A 0 =? 45)).
    + destruct (parseNumber A st) as [e2|] eqn:En; [|discriminate].
      destruct (ParseInt (string_of_runes (slice A st e2)) 10) as [num|] eqn:Ep;
        [|discriminate].
      cbv beta iota zeta in H |- *.
      pose proof (skipSpaces_bounds A e2) as B3.
      pose proof (parseNumber_bounds _ _ _ En) as B4.
      destruct (Nat.eqb_spec (skipSpaces A e2) (List.length A)) as [|E3]; [discriminate|].
      rewrite (pre_num A b st e2 En) by lia.
      rewrite pre_slice, Ep by lia; cbv beta iota zeta.
      rewrite pre_skip_lt by lia.
      replace (Nat.eqb (skipSpaces A e2) (List.length (A ++ b))) with false
        by (symmetry; apply Nat.eqb_neq; lia).
      rewrite pre_nth by lia.
      destruct (negb (nth (skipSpaces A e2) A 0 =? 93)); [discriminate|].
      eapply IH; [|exact H|..]; lia.
    + destruct ((nth st A 0 =? 39) || (nth st A 0 =? 34)); [|discriminate].
      destruct (parseQuotedName A (nth st A 0) (st + 1)) as [[nm e2]|] eqn:Eq;
        [|discriminate].
      rewrite (pre_quoted A b _ _ _ _ Eq).
      cbv beta iota zeta in H |- *.
      pose proof (skipSpaces_bounds A e2) as B3.
      pose proof (parseQuotedName_bounds _ _ _ _ _ Eq) as B4.
      destruct (Nat.eqb_spec (skipSpaces A e2) (List.length A)) as [|E3]; [discriminate|].
      rewrite pre_skip_lt by lia.
      replace (Nat.eqb (skipSpaces A e2) (List.length (A ++ b))) with false
        by (symmetry; apply Nat.eqb_neq; lia).
      rewrite pre_nth by lia.
      destruct (negb (nth (skipSpaces A e2) A 0 =? 93)); [discriminate|].
      eapply IH; [|exact H|..]; lia.
  - destruct (nth i A 0 =? 46); [|discriminate].
    destruct (nth st A 0 =? 40).
    + destruct (parseBareName A (skipSpaces A (st + 1))) as [[nm e2]|] eqn:Eb;
        [|discriminate].
      pose proof (parseBareName_bounds _ _ _ _ Eb) as B4.
      rewrite pre_skip_lt by lia.
      rewrite (pre_bare A b Hb _ _ _ Eb).
      pose proof (skipSpaces_bounds A e2) as B3.
      destruct (Nat.eqb_spec (skipSpaces A e2) (List.length A)) as [|E3]; [discriminate|].
      rewrite pre_skip_lt by lia.
      replace (Nat.eqb (skipSpaces A e2) (List.length (A ++ b))) with false
        by (symmetry; apply Nat.eqb_neq; lia).
      rewrite pre_nth by lia.
      destruct (negb (nth (skipSpaces A e2) A 0 =? 41)); [discriminate|].
      pose proof (skipSpaces_bounds A (st + 1)); eapply IH; [|exact H|..]; lia.
    + destruct (parseBareName A st) as [[nm e2]|] eqn:Eb; [|discriminate].
      pose proof (parseBareName_bounds _ _ _ _ Eb) as B4.
      rewrite (pre_bare A b Hb _ _ _ Eb).
      pose proof (skipSpaces_bounds A e2) as B3.
      pose proof (skipSpaces_bounds (A ++ b) e2) as B5.
      replace (skipSpaces A e2 - 1 + 1)%nat with (skipSpaces A e2) in H by lia.
      replace (skipSpaces (A ++ b) e2 - 1 + 1)%nat with (skipSpaces (A ++ b) e2) by lia.
      rewrite (pre_skip_rel A b e2 F F) by lia.
      eapply IH; [|exact H|..]; lia.
Qed.

Lemma Compile_cons_root (l : list rune) :
  Compile (36 :: l) = compileCore_loop (S (List.length l)) (36 :: l) 1 [].
Proof. reflexivity. Qed.

(** A path that compiles goes on with whitespace, a dot or a bracket. *)
Lemma Compile_head_not_bare (b : list rune) (p : CompiledJSONPath) :
  Compile (36 :: b) = CompileOk p -> head_not bare_char b.
Proof.
  rewrite Compile_cons_root.
  destruct b as [|c b]; [intros _; exact I|]; cbn [head_not].
  cbn [compileCore_loop List.length Nat.ltb nth]; cbv zeta.
  replace (Nat.ltb 1 (S (S (List.length b)))) with true by (symmetry; apply Nat.ltb_lt; lia).
  destruct (IsSpace c || IsControl c) eqn:Ew.
  - intros _; apply ws_not_bare; exact Ew.
  - destruct (c =? 91) eqn:E1; [intros _; apply Z.eqb_eq in E1; subst c; reflexivity|].
    destruct (c =? 46) eqn:E2; [intros _; apply Z.eqb_eq in E2; subst c; reflexivity|].
    discriminate.
Qed.

(** ** Facts about quoted names *)

Lemma unclosed_skip (src : list rune) (q : rune) (k : nat) : forall p,
  (p + k <= List.length src)%nat ->
  (forall j, (p <= j < p + k)%nat -> (nth j src 0 =? 92) = false /\ (nth j src 0 =? q) = false) ->
  unclosed q (skipn p src) = true -> unclosed q (skipn (p + k) src) = true.
Proof.
  induction k as [|k IH]; intros p Hk Hj Hu; [rewrite Nat.add_0_r; exact Hu|].
  replace (p + S k)%nat with (S p + k)%nat by lia.
  apply IH; [lia|intros j Hj'; apply Hj; lia|].
  rewrite (skipn_nth_cons src p) in Hu by lia.
  destruct (Hj p ltac:(lia)) as [H1 H2].
  cbn [unclosed] in Hu; rewrite H1, H2 in Hu; exact Hu.
Qed.

Lemma parseUintDigits_digitVal (base acc : Z) (s : list rune) (u : Z) :
  parseUintDigits base acc s = Some u -> Forall (fun c => digitVal c <> None) s.
Proof.
  revert acc; induction s as [|c s IH]; intros acc H; [constructor|].
  simpl in H; destruct (digitVal c) as [d|] eqn:E; [|discriminate].
  destruct (d <? base); [|discriminate].
  constructor; [congruence|exact (IH _ H)].
Qed.

(** The characters a successful [strconv.ParseInt] reads are digits or a
    sign: never a backslash or a quote. *)
Lemma ParseInt_no_quote (s : gostring) (base v : Z) :
  ParseInt s base = Some v ->
  forall c, In c s -> (c =? 92) = false /\ (c =? 34) = false /\ (c =? 39) = false.
Proof.
  intros H c Hc.
  assert (Hd : digitVal c <> None \/ c = 43 \/ c = 45).
  { destruct s as [|c0 t]; [discriminate|].
    unfold ParseInt in H.
    assert (Hb : forall body, ParseUint body base <> None -> Forall (fun c => digitVal c <> None) body).
    { intros body Hu; unfold ParseUint in Hu; destruct body as [|x body]; [congruence|].
      destruct (parseUintDigits base 0 (x :: body)) eqn:E; [|congruence].
      exact (parseUintDigits_digitVal _ _ _ _ E). }
    destruct (c0 =? 43) eqn:E43; [|destruct (c0 =? 45) eqn:E45]; cbv beta iota in H.
    - destruct (ParseUint t base) eqn:Eu; [|discriminate].
      destruct Hc as [<-|Hc]; [right; left; apply Z.eqb_eq; exact E43|].
      left; refine (proj1 (Forall_forall _ _) (Hb t _) c Hc); congruence.
    - destruct (ParseUint t base) eqn:Eu; [|discriminate].
      destruct Hc as [<-|Hc]; [right; right; apply Z.eqb_eq; exact E45|].
      left; refine (proj1 (Forall_forall _ _) (Hb t _) c Hc); congruence.
    - destruct (ParseUint (c0 :: t) base) eqn:Eu; [|discriminate].
      left; refine (proj1 (Forall_forall _ _) (Hb _ _) c Hc); congruence. }
  destruct (Z.eqb_spec c 92) as [->|]; [destruct Hd as [Hd|[Hd|Hd]]; [now contradiction Hd|discriminate|discriminate]|].
  destruct (Z.eqb_spec c 34) as [->|]; [destruct Hd as [Hd|[Hd|Hd]]; [now contradiction Hd|discriminate|discriminate]|].
  destruct (Z.eqb_spec c 39) as [->|]; [destruct Hd as [Hd|[Hd|Hd]]; [now contradiction Hd|discriminate|discriminate]|].
  auto.
Qed.

Lemma ParseInt_string_no_quote (l : list rune) (base v : Z) :
  ParseInt (string_of_runes l) base = Some v ->
  forall c, In c l -> (c =? 92) = false /\ (c =? 34) = false /\ (c =? 39) = false.
Proof.
  intros H c Hc.
  pose proof (ParseInt_no_quote _ _ _ H) as Hn.
  destruct (Z.eqb_spec c 92) as [->|];
    [destruct (Hn 92 (in_map (fun r => if ValidRune r then r else RuneError) _ _ Hc)) as [E _];
     discriminate|].
  destruct (Z.eqb_spec c 34) as [->|];
    [destruct (Hn 34 (in_map (fun r => if ValidRune r then r else RuneError) _ _ Hc)) as [_ [E _]];
     discriminate|].
  destruct (Z.eqb_spec c 39) as [->|];
    [destruct (Hn 39 (in_map (fun r => if ValidRune r then r else RuneError) _ _ Hc)) as [_ [_ E]];
     discriminate|].
  auto.
Qed.

Lemma slice_In (src : list rune) (a b j : nat) :
  (a <= j < b)%nat -> (b <= List.length src)%nat -> In (nth j src 0) (slice src a b).
Proof.
  intros Hj Hb; unfold slice.
  replace (nth j src 0) with (nth (j - a) (firstn (b - a) (skipn a src)) 0).
  - apply nth_In; rewrite length_firstn, length_skipn; lia.
  - rewrite nth_firstn by lia.
    replace (Nat.ltb (j - a) (b - a)) with true by (symmetry; apply Nat.ltb_lt; lia).
    rewrite nth_skipn; f_equal; lia.
Qed.

Lemma parseHex_digits (src : list rune) (s e : nat) :
  parseHex src s = Some e -> forall j, (s <= j < e)%nat -> isHexDigit (nth j src 0) = true.
Proof.
  unfold parseHex; intros H.
  destruct (Nat.eqb _ s); [discriminate|injection H as <-].
  assert (G : forall X k j, (k <= j < parseHex_loop X k)%nat -> isHexDigit (nth (j - k) X 0) = true).
  { induction X as [|c X IH]; intros k j Hj; simpl in Hj; [lia|].
    destruct (isHexDigit c) eqn:Ec; [|lia].
    destruct (Nat.eq_dec j k) as [->|Hne]; [rewrite Nat.sub_diag; exact Ec|].
    replace (j - k)%nat with (S (j - S k)) by lia; apply IH; lia. }
  intros j Hj; pose proof (G _ _ _ Hj) as Hg.
  rewrite nth_skipn in Hg; replace (s + (j - s))%nat with j in Hg by lia; exact Hg.
Qed.

Lemma hex_no_quote (c : rune) :
  isHexDigit c = true -> (c =? 92) = false /\ (c =? 34) = false /\ (c =? 39) = false.
Proof.
  unfold isHexDigit; intros H.
  repeat rewrite orb_true_iff, ?andb_true_iff, ?Z.leb_le in H.
  repeat split; apply Z.eqb_neq; lia.
Qed.

Lemma pqn_unclosed (src : list rune) (q : rune) (Hq : q = 39 \/ q = 34) :
  forall fuel i buf, unclosed q (skipn i src) = true ->
  parseQuotedName_loop fuel src q i buf = None.
Proof.
  induction fuel as [|f IH]; intros i buf Hu; [reflexivity|].
  cbn [parseQuotedName_loop].
  destruct (Nat.ltb_spec i (List.length src)) as [Hi|Hi]; [|reflexivity].
  rewrite (skipn_nth_cons src i Hi) in Hu; cbn [unclosed] in Hu.
  destruct (nth i src 0 =? q) eqn:Ec.
  { exfalso; apply Z.eqb_eq in Ec.
    destruct (nth i src 0 =? 92) eqn:E92;
      [apply Z.eqb_eq in E92; destruct Hq; subst; lia|].
    rewrite ?Ec, ?Z.eqb_refl in Hu; discriminate. }
  destruct (nth i src 0 =? 92) eqn:E92.
  2: { apply IH; rewrite Nat.add_1_r; rewrite ?Ec in Hu; exact Hu. }
  destruct (Nat.eqb_spec (i + 1) (List.length src)) as [|Hn]; [reflexivity|].
  rewrite (skipn_nth_cons src (S i)) in Hu by lia.
  set (c1 := nth (i + 1) src 0).
  destruct ((c1 =? 92) || (c1 =? 34) || (c1 =? 39) || (c1 =? 96)) eqn:T1;
    [apply IH; replace (i + 1 + 1)%nat with (S (S i)) by lia; exact Hu|].
  destruct ((c1 =? 110) || (c1 =? 78));
    [apply IH; replace (i + 1 + 1)%nat with (S (S i)) by lia; exact Hu|].
  destruct ((c1 =? 114) || (c1 =? 82));
    [apply IH; replace (i + 1 + 1)%nat with (S (S i)) by lia; exact Hu|].
  destruct ((c1 =? 118) || (c1 =? 86));
    [apply IH; replace (i + 1 + 1)%nat with (S (S i)) by lia; exact Hu|].
  destruct ((c1 =? 116) || (c1 =? 84));
    [apply IH; replace (i + 1 + 1)%nat with (S (S i)) by lia; exact Hu|].
  destruct ((c1 =? 98) || (c1 =? 66));
    [apply IH; replace (i + 1 + 1)%nat with (S (S i)) by lia; exact Hu|].
  destruct ((c1 =? 102) || (c1 =? 70));
    [apply IH; replace (i + 1 + 1)%nat with (S (S i)) by lia; exact Hu|].
  destruct ((c1 =? 120) || (c1 =? 88)).
  { destruct (Nat.leb_spec (List.length src) (i + 3)); [reflexivity|].
    destruct (ParseInt (string_of_runes (slice src (i + 2) (i + 4))) 16) as [v|] eqn:EP;
      [|reflexivity].
    apply IH; replace (i + 3 + 1)%nat with (S (S i) + 2)%nat by lia.
    apply unclosed_skip; [lia| |exact Hu].
    intros j Hj.
    pose proof (ParseInt_string_no_quote _ _ _ EP (nth j src 0)
                  (slice_In src (i + 2) (i + 4) j ltac:(lia) ltac:(lia))) as Hx.
    destruct Hq as [-> | ->]; tauto. }
  destruct ((c1 =? 117) || (c1 =? 85)).
  2: { apply IH; rewrite (skipn_nth_cons src (i + 1)) by lia.
       apply orb_false_iff in T1; destruct T1 as [T1 _].
       apply orb_false_iff in T1; destruct T1 as [T1 T39].
       apply orb_false_iff in T1; destruct T1 as [T92 T34].
       cbn [unclosed]; fold c1; rewrite T92.
       replace (c1 =? q) with false by (destruct Hq as [-> | ->]; symmetry; assumption).
       replace (S (i + 1)) with (S (S i)) by lia; exact Hu. }
  destruct (Nat.leb_spec (List.length src) (i + 2)); [reflexivity|].
  destruct (nth (i + 2) src 0 =? 123) eqn:Eb.
  - destruct (parseHex src (i + 3)) as [e|] eqn:EH; [|reflexivity].
    pose proof (parseHex_gt _ _ _ EH) as Hge.
    destruct (Nat.ltb (i + 9) e); [reflexivity|].
    destruct (ParseInt (string_of_runes (slice src (i + 3) e)) 16); [|reflexivity].
    cbv zeta.
    destruct (Nat.leb_spec (List.length src) e); [reflexivity|].
    destruct (nth e src 0 =? 125) eqn:Ee; [|reflexivity]; cbn [negb].
    apply IH; replace (e + 1)%nat with (S (S i) + (e + 1 - S (S i)))%nat by lia.
    apply unclosed_skip; [lia| |exact Hu].
    intros j Hj.
    assert (Hx : (nth j src 0 =? 92) = false /\ (nth j src 0 =? 34) = false
                 /\ (nth j src 0 =? 39) = false).
    { destruct (Nat.eq_dec j (i + 2)) as [->|]; [apply Z.eqb_eq in Eb; rewrite Eb; auto|].
      destruct (Nat.eq_dec j e) as [->|]; [apply Z.eqb_eq in Ee; rewrite Ee; auto|].
      apply hex_no_quote, (parseHex_digits _ _ _ EH); lia. }
    destruct Hq as [-> | ->]; tauto.
  - destruct (Nat.leb_spec (List.length src) (i + 5)); [reflexivity|].
    destruct (parseHex src (i + 2)) as [e|] eqn:EH; [|reflexivity].
    destruct (Nat.eqb_spec e (i + 6)) as [->|]; [|reflexivity]; cbn [negb].
    destruct (ParseInt (string_of_runes (slice src (i + 2) (i + 6))) 16); [|reflexivity].
    apply IH; replace (i + 6 - 1 + 1)%nat with (S (S i) + 4)%nat by lia.
    apply unclosed_skip; [lia| |exact Hu].
    intros j Hj.
    pose proof (hex_no_quote _ (parseHex_digits _ _ _ EH j ltac:(lia))) as Hx.
    destruct Hq as [-> | ->]; tauto.
Qed.

Lemma hex_digits_length (w : nat) (c : Z) : List.length (hex_digits w c) = w.
Proof.
  revert c; induction w as [|w IH]; intro c; simpl; [reflexivity|].
  rewrite length_app, IH; simpl; lia.
Qed.

Lemma hex_digit_hex (d : Z) : 0 <= d < 16 -> isHexDigit (hex_digit d) = true.
Proof.
  intros Hd; unfold hex_digit, isHexDigit.
  destruct (Z.ltb_spec d 10).
  - replace ((48 <=? 48 + d) && (48 + d <=? 57)) with true
      by (symmetry; apply andb_true_iff; split; apply Z.leb_le; lia); reflexivity.
  - replace ((97 <=? 87 + d) && (87 + d <=? 102)) with true
      by (symmetry; apply andb_true_iff; split; apply Z.leb_le; lia).
    apply orb_true_r.
Qed.

Lemma hex_digits_hex (w : nat) (c : Z) : Forall (fun d => isHexDigit d = true) (hex_digits w c).
Proof.
  revert c; induction w as [|w IH]; intro c; simpl; [constructor|].
  apply Forall_app; split; [apply IH|].
  constructor; [apply hex_digit_hex, Z.mod_pos_bound; lia|constructor].
Qed.

Lemma hex_valid (d : rune) : isHexDigit d = true -> ValidRune d = true.
Proof.
  unfold isHexDigit, ValidRune; intros H.
  repeat rewrite orb_true_iff, ?andb_true_iff, ?Z.leb_le in H.
  apply orb_true_iff; left; apply andb_true_iff; split; [apply Z.leb_le|apply Z.ltb_lt]; lia.
Qed.

Lemma string_of_runes_hex (X : list rune) :
  Forall (fun d => isHexDigit d = true) X -> string_of_runes X = X.
Proof.
  induction 1 as [|d X Hd HX IH]; simpl; [reflexivity|].
  rewrite hex_valid by exact Hd; f_equal; exact IH.
Qed.

Lemma digitVal_hex_digit (d : Z) : 0 <= d < 16 -> digitVal (hex_digit d) = Some d.
Proof.
  intros Hd; unfold hex_digit, digitVal.
  destruct (Z.ltb_spec d 10).
  - replace ((48 <=? 48 + d) && (48 + d <=? 57)) with true
      by (symmetry; apply andb_true_iff; split; apply Z.leb_le; lia); f_equal; lia.
  - replace ((48 <=? 87 + d) && (87 + d <=? 57)) with false
      by (symmetry; apply andb_false_iff; right; apply Z.leb_gt; lia).
    replace ((97 <=? 87 + d) && (87 + d <=? 122)) with true
      by (symmetry; apply andb_true_iff; split; apply Z.leb_le; lia); f_equal; lia.
Qed.

Lemma parseUintDigits_app (base acc : Z) (X Y : list rune) :
  parseUintDigits base acc (X ++ Y)
  = match parseUintDigits base acc X with Some a => parseUintDigits base a Y | None => None end.
Proof.
  revert acc; induction X as [|c X IH]; intro acc; simpl; [reflexivity|].
  destruct (digitVal c); [|reflexivity].
  destruct (_ <? base); [apply IH|reflexivity].
Qed.

Lemma hex_digits_value (w : nat) : forall (c acc : Z), 0 <= c < 16 ^ Z.of_nat w ->
  parseUintDigits 16 acc (hex_digits w c) = Some (acc * 16 ^ Z.of_nat w + c).
Proof.
  induction w as [|w IH]; intros c acc Hc.
  - simpl in *; f_equal; lia.
  - cbn [hex_digits]; rewrite parseUintDigits_app.
    rewrite Nat2Z.inj_succ, Z.pow_succ_r in Hc by lia.
    pose proof (Z.mod_pos_bound c 16 ltac:(lia)) as Hm.
    rewrite IH by (split; [apply Z.div_pos; lia|apply Z.div_lt_upper_bound; lia]).
    cbn [parseUintDigits]; rewrite digitVal_hex_digit by lia.
    replace (c mod 16 <? 16) with true by (symmetry; apply Z.ltb_lt; lia).
    f_equal; rewrite Nat2Z.inj_succ, Z.pow_succ_r by lia.
    pose proof (Z.div_mod c 16 ltac:(lia)); lia.
Qed.

Lemma ParseInt_hex (w : nat) (c : Z) :
  (1 <= w)%nat -> 0 <= c < 16 ^ Z.of_nat w -> c < 2 ^ 63 ->
  ParseInt (hex_digits w c) 16 = Some c.
Proof.
  intros Hw Hc H63.
  pose proof (hex_digits_hex w c) as Hh.
  pose proof (hex_digits_value w c 0 Hc) as Hv; rewrite Z.mul_0_l, Z.add_0_l in Hv.
  destruct (hex_digits w c) as [|d t] eqn:E.
  { pose proof (hex_digits_length w c) as L; rewrite E in L; simpl in L; lia. }
  pose proof (Forall_inv Hh) as Hd; simpl in Hd.
  unfold ParseInt.
  replace (d =? 43) with false
    by (symmetry; apply Z.eqb_neq; intros ->; discriminate Hd).
  replace (d =? 45) with false
    by (symmetry; apply Z.eqb_neq; intros ->; discriminate Hd).
  unfold ParseUint; rewrite Hv.
  replace (c <? 2 ^ 64) with true by (symmetry; apply Z.ltb_lt; lia).
  replace (2 ^ 63 <=? c) with false by (symmetry; apply Z.leb_gt; lia).
  reflexivity.
Qed.

Lemma to_int32_small (c : Z) : 0 <= c < 2 ^ 31 -> to_int32 c = c.
Proof.
  intros Hc; unfold to_int32; rewrite Z.mod_small by lia; lia.
Qed.

Lemma parseHex_loop_hex (X Y : list rune) (k : nat) :
  Forall (fun d => isHexDigit d = true) X ->
  parseHex_loop (X ++ Y) k = parseHex_loop Y (k + List.length X).
Proof.
  intros HX; revert k; induction HX as [|d X Hd HX IH]; intro k; simpl.
  - rewrite Nat.add_0_r; reflexivity.
  - rewrite Hd, IH; f_equal; lia.
Qed.

Lemma short_escape_cases (c e : rune) :
  short_escape c = Some e ->
  (c = 92 /\ e = 92) \/ (c = 34 /\ e = 34) \/ (c = 39 /\ e = 39) \/ (c = 96 /\ e = 96)
  \/ (c = 10 /\ e = 110) \/ (c = 13 /\ e = 114) \/ (c = 11 /\ e = 118)
  \/ (c = 9 /\ e = 116) \/ (c = 8 /\ e = 98) \/ (c = 12 /\ e = 102).
Proof.
  unfold short_escape.
  destruct (Z.eqb_spec c 92); [subst; simpl; intros [=]; lia|].
  destruct (Z.eqb_spec c 34); [subst; simpl; intros [=]; lia|].
  destruct (Z.eqb_spec c 39); [subst; simpl; intros [=]; lia|].
  destruct (Z.eqb_spec c 96); [subst; simpl; intros [=]; lia|].
  simpl.
  destruct (Z.eqb_spec c 10); [subst; intros [=]; lia|].
  destruct (Z.eqb_spec c 13); [subst; intros [=]; lia|].
  destruct (Z.eqb_spec c 11); [subst; intros [=]; lia|].
  destruct (Z.eqb_spec c 9); [subst; intros [=]; lia|].
  destruct (Z.eqb_spec c 8); [subst; intros [=]; lia|].
  destruct (Z.eqb_spec c 12); [subst; intros [=]; lia|].
  discriminate.
Qed.

(** The first code point after a well-spelled name and its closing quote
    is not a hex digit. *)
Lemma spell_head_not_hex (q : rune) (l : list (spelling * rune)) (r : list rune) :
  (q = 39 \/ q = 34) -> spellings_ok q l = true -> next_not_hex l = true ->
  exists d t, spell_name l ++ q :: r = d :: t /\ isHexDigit d = false.
Proof.
  intros Hq Hok Hn; destruct l as [|[sp c] l'].
  - exists q, r; split; [reflexivity|destruct Hq as [-> | ->]; reflexivity].
  - simpl in Hok; apply andb_true_iff in Hok; destruct Hok as [Hok _].
    apply andb_true_iff in Hok; destruct Hok as [Hsp _].
    destruct sp; cbn [spell_name flat_map fst snd spell].
    + exists c, (spell_name l' ++ q :: r); split; [reflexivity|].
      simpl in Hn; apply negb_true_iff; exact Hn.
    + simpl in Hsp; destruct (short_escape c); [|discriminate].
      eexists; eexists; split; [reflexivity|reflexivity].
    + eexists; eexists; split; [reflexivity|reflexivity].
    + eexists; eexists; split; [reflexivity|reflexivity].
    + eexists; eexists; split; [reflexivity|reflexivity].
Qed.

Lemma skipn_le_length (src X : list rune) (i : nat) (y : rune) (Y : list rune) :
  skipn i src = X ++ y :: Y -> (i + List.length X < List.length src)%nat.
Proof.
  intros H; pose proof (f_equal (@List.length rune) H) as HL.
  rewrite length_skipn, length_app in HL; simpl in HL; lia.
Qed.

Lemma pow16_bound (w : nat) (c : Z) : (w <= 6)%nat -> c < 16 ^ Z.of_nat w -> c < 2 ^ 24.
Proof.
  intros Hw Hc.
  assert (16 ^ Z.of_nat w <= 16 ^ 6) by (apply Z.pow_le_mono_r; lia).
  change (16 ^ 6) with (2 ^ 24) in H; lia.
Qed.

Lemma pqn_spell (q : rune) (Hq : q = 39 \/ q = 34) (src r : list rune) :
  forall l fuel i buf,
  skipn i src = spell_name l ++ q :: r -> spellings_ok q l = true ->
  (List.length (spell_name l) < fuel)%nat ->
  parseQuotedName_loop fuel src q i buf
  = Some (string_of_runes (buf ++ map snd l), (i + List.length (spell_name l) + 1)%nat).
Proof.
  assert (Hq92 : (92 =? q) = false) by (destruct Hq; subst; reflexivity).
  induction l as [|[sp c] l IH]; intros fuel i buf Hs Hok Hf;
    destruct fuel as [|f]; try (simpl in Hf; lia).
  - simpl in Hs; destruct (skipn_cons_at _ _ _ _ Hs) as [Hn [_ Hlt]].
    cbn [parseQuotedName_loop].
    destruct (Nat.ltb_spec i (List.length src)); [|lia].
    rewrite Hn, Z.eqb_refl, app_nil_r; simpl; rewrite Nat.add_0_r; reflexivity.
  - cbn [spellings_ok] in Hok.
    apply andb_true_iff in Hok; destruct Hok as [Hok Hl].
    apply andb_true_iff in Hok; destruct Hok as [Hsp Hnx].
    change (spell_name ((sp, c) :: l)) with (spell sp c ++ spell_name l) in *.
    rewrite <- app_assoc in Hs.
    set (T := spell_name l ++ q :: r) in Hs.
    pose proof (skipn_le_length src (spell sp c ++ spell_name l) i q r) as Hlen.
    rewrite <- app_assoc in Hlen; specialize (Hlen Hs); rewrite length_app in Hlen.
    assert (Step : parseQuotedName_loop (S f) src q i buf
                   = parseQuotedName_loop f src q (i + List.length (spell sp c)) (buf ++ [c])).
    { cbn [parseQuotedName_loop].
      destruct (Nat.ltb_spec i (List.length src)) as [_|]; [|lia].
      destruct sp; unfold spell, spell_ok in Hs, Hsp, Hlen |- *.
      + (* the code point itself *)
        destruct (skipn_cons_at _ _ _ _ Hs) as [Hn _]; rewrite Hn.
        apply andb_true_iff in Hsp; destruct Hsp as [H1 H2].
        apply negb_true_iff in H1; apply negb_true_iff in H2.
        rewrite H1, H2; reflexivity.
      + (* a backslash and a letter of the table *)
        destruct (short_escape c) as [e|] eqn:Ee; cbv iota in Hs, Hsp; [|discriminate].
        destruct (skipn_cons_at _ _ _ _ Hs) as [Hn0 [Hs1 _]].
        destruct (skipn_cons_at _ _ _ _ Hs1) as [Hn1 _].
        rewrite Hn0, Hq92, Z.eqb_refl.
        replace (Nat.eqb (i + 1) (List.length src)) with false
          by (symmetry; apply Nat.eqb_neq; simpl in Hlen; lia).
        rewrite Nat.add_1_r, Hn1.
        destruct (short_escape_cases _ _ Ee)
          as [[-> ->]|[[-> ->]|[[-> ->]|[[-> ->]|[[-> ->]|[[-> ->]|[[-> ->]|[[-> ->]|[[-> ->]|[-> ->]]]]]]]]]];
          cbn -[parseQuotedName_loop Nat.add]; f_equal; lia.
      + (* \xHH *)
        assert (Hs' : skipn i src = 92 :: 120 :: (hex_digits 2 c ++ T)) by (rewrite Hs; reflexivity).
        clear Hs; rename Hs' into Hs.
        destruct (skipn_cons_at _ _ _ _ Hs) as [Hn0 [Hs1 _]].
        destruct (skipn_cons_at _ _ _ _ Hs1) as [Hn1 [Hs2 _]].
        rewrite ?length_app, ?hex_digits_length in Hlen; cbn [List.length] in Hlen.
        apply andb_true_iff in Hsp; destruct Hsp as [H0 H1];
          apply Z.leb_le in H0; apply Z.ltb_lt in H1.
        rewrite Hn0, Hq92, Z.eqb_refl.
        replace (Nat.eqb (i + 1) (List.length src)) with false
          by (symmetry; apply Nat.eqb_neq; lia).
        rewrite Nat.add_1_r, Hn1; cbn -[parseQuotedName_loop Nat.add Nat.leb slice
                                        string_of_runes ParseInt hex_digits].
        replace (Nat.leb (List.length src) (i + 3)) with false
          by (symmetry; apply Nat.leb_gt; lia).
        replace (slice src (i + 2) (i + 4)) with (hex_digits 2 c)
          by (symmetry; replace (i + 4)%nat with (S (S i) + List.length (hex_digits 2 c))%nat
                by (rewrite hex_digits_length; lia);
              replace (i + 2)%nat with (S (S i)) by lia; apply (slice_at _ _ _ _ Hs2)).
        rewrite string_of_runes_hex by apply hex_digits_hex.
        rewrite ParseInt_hex by (simpl; lia).
        rewrite to_int32_small by lia.
        cbn [List.length app]; rewrite hex_digits_length; f_equal; lia.
      + (* \uHHHH *)
        assert (Hs' : skipn i src = 92 :: 117 :: (hex_digits 4 c ++ T)) by (rewrite Hs; reflexivity).
        clear Hs; rename Hs' into Hs.
        destruct (skipn_cons_at _ _ _ _ Hs) as [Hn0 [Hs1 _]].
        destruct (skipn_cons_at _ _ _ _ Hs1) as [Hn1 [Hs2 _]].
        rewrite ?length_app, ?hex_digits_length in Hlen; cbn [List.length] in Hlen.
        apply andb_true_iff in Hsp; destruct Hsp as [H0 H1];
          apply Z.leb_le in H0; apply Z.ltb_lt in H1.
        rewrite Hn0, Hq92, Z.eqb_refl.
        replace (Nat.eqb (i + 1) (List.length src)) with false
          by (symmetry; apply Nat.eqb_neq; lia).
        rewrite Nat.add_1_r, Hn1; cbn -[parseQuotedName_loop Nat.add Nat.leb Nat.eqb slice
                                        string_of_runes ParseInt hex_digits parseHex nth].
        replace (Nat.leb (List.length src) (i + 2)) with false
          by (symmetry; apply Nat.leb_gt; lia).
        replace (Nat.leb (List.length src) (i + 5)) with false
          by (symmetry; apply Nat.leb_gt; lia).
        pose proof (hex_digits_hex 4 c) as Hh.
        assert (H2 : (nth (i + 2) src 0 =? 123) = false).
        { destruct (hex_digits 4 c) as [|d t] eqn:Ed; [discriminate|].
          destruct (skipn_cons_at _ _ _ _ Hs2) as [Hn2 _].
          replace (i + 2)%nat with (S (S i)) by lia; rewrite Hn2.
          pose proof (Forall_inv Hh) as Hd; simpl in Hd.
          apply Z.eqb_neq; intros ->; discriminate Hd. }
        rewrite H2.
        destruct (spell_head_not_hex q l r Hq Hl Hnx) as [d [t [Et Hd]]].
        fold T in Et.
        assert (H3 : parseHex src (i + 2) = Some (i + 6)%nat).
        { unfold parseHex; replace (i + 2)%nat with (S (S i)) by lia.
          rewrite Hs2, parseHex_loop_hex by exact Hh.
          rewrite Et, hex_digits_length; cbn [parseHex_loop]; rewrite Hd.
          replace (Nat.eqb (S (S i) + 4) (S (S i))) with false
            by (symmetry; apply Nat.eqb_neq; lia).
          f_equal; lia. }
        rewrite H3, Nat.eqb_refl; cbn [negb].
        replace (slice src (i + 2) (i + 6)) with (hex_digits 4 c)
          by (symmetry; replace (i + 6)%nat with (S (S i) + List.length (hex_digits 4 c))%nat
                by (rewrite hex_digits_length; lia);
              replace (i + 2)%nat with (S (S i)) by lia; apply (slice_at _ _ _ _ Hs2)).
        rewrite string_of_runes_hex by apply hex_digits_hex.
        rewrite ParseInt_hex by (simpl; lia).
        rewrite to_int32_small by lia.
        cbn [List.length app]; rewrite hex_digits_length; f_equal; lia.
      + (* \u{H..H} *)
        assert (Hs' : skipn i src = 92 :: 117 :: 123 :: (hex_digits w c ++ 125 :: T))
          by (rewrite Hs; simpl; rewrite <- app_assoc; reflexivity).
        clear Hs; rename Hs' into Hs.
        destruct (skipn_cons_at _ _ _ _ Hs) as [Hn0 [Hs1 _]].
        destruct (skipn_cons_at _ _ _ _ Hs1) as [Hn1 [Hs2 _]].
        destruct (skipn_cons_at _ _ _ _ Hs2) as [Hn2 [Hs3 _]].
        rewrite ?length_app, ?hex_digits_length in Hlen; cbn [List.length] in Hlen.
        apply andb_true_iff in Hsp; destruct Hsp as [Hsp H1]; apply Z.ltb_lt in H1.
        apply andb_true_iff in Hsp; destruct Hsp as [Hsp H0]; apply Z.leb_le in H0.
        apply andb_true_iff in Hsp; destruct Hsp as [Hw1 Hw6];
          apply Nat.leb_le in Hw1; apply Nat.leb_le in Hw6.
        pose proof (pow16_bound w c Hw6 H1) as Hc24.
        rewrite Hn0, Hq92, Z.eqb_refl.
        replace (Nat.eqb (i + 1) (List.length src)) with false
          by (symmetry; apply Nat.eqb_neq; lia).
        rewrite Nat.add_1_r, Hn1; cbn -[parseQuotedName_loop Nat.add Nat.leb Nat.ltb Nat.eqb slice
                                        string_of_runes ParseInt hex_digits parseHex nth].
        replace (Nat.leb (List.length src) (i + 2)) with false
          by (symmetry; apply Nat.leb_gt; lia).
        replace (i + 2)%nat with (S (S i)) by lia; rewrite Hn2; cbn -[parseQuotedName_loop
          Nat.add Nat.leb Nat.ltb Nat.eqb slice string_of_runes ParseInt hex_digits parseHex nth].
        pose proof (hex_digits_hex w c) as Hh.
        destruct (skipn_app_at _ _ _ _ Hs3 ltac:(lia)) as [Hs4 _].
        rewrite hex_digits_length in Hs4.
        destruct (skipn_cons_at _ _ _ _ Hs4) as [Hn4 _].
        assert (H3 : parseHex src (i + 3) = Some (i + 3 + w)%nat).
        { unfold parseHex; replace (i + 3)%nat with (S (S (S i))) by lia.
          rewrite Hs3, parseHex_loop_hex by exact Hh.
          rewrite hex_digits_length; cbn [parseHex_loop].
          change (isHexDigit 125) with false; cbv iota.
          replace (Nat.eqb (S (S (S i)) + w) (S (S (S i)))) with false
            by (symmetry; apply Nat.eqb_neq; lia).
          f_equal; lia. }
        rewrite H3.
        replace (Nat.ltb (i + 9) (i + 3 + w)) with false by (symmetry; apply Nat.ltb_ge; lia).
        replace (slice src (i + 3) (i + 3 + w)) with (hex_digits w c)
          by (symmetry; replace (i + 3 + w)%nat with (S (S (S i)) + List.length (hex_digits w c))%nat
                by (rewrite hex_digits_length; lia);
              replace (i + 3)%nat with (S (S (S i))) by lia; apply (slice_at _ _ _ _ Hs3)).
        rewrite string_of_runes_hex by apply hex_digits_hex.
        rewrite ParseInt_hex by lia.
        rewrite to_int32_small by lia.
        replace (Nat.leb (List.length src) (i + 3 + w)) with false
          by (symmetry; apply Nat.leb_gt; lia).
        replace (i + 3 + w)%nat with (S (S (S i)) + w)%nat by lia.
        rewrite Hn4; cbn [negb Z.eqb Pos.eqb].
        cbn [List.length app]; rewrite length_app, hex_digits_length; cbn [List.length].
        f_equal; lia. }
    assert (Hpos : (1 <= List.length (spell sp c))%nat).
    { destruct sp; unfold spell_ok in Hsp; unfold spell;
        try (destruct (short_escape c); [|discriminate]); rewrite ?length_app; simpl; lia. }
    rewrite Step.
    destruct (skipn_app_at _ _ _ _ Hs ltac:(lia)) as [Hs' _].
    rewrite (IH f _ (buf ++ [c]) Hs' Hl) by (rewrite length_app in Hf; lia).
    rewrite <- app_assoc, length_app; cbn [map app]; f_equal; f_equal; lia.
Qed.

Lemma parseQuotedName_spell (q : rune) (l : list (spelling * rune)) :
  (q = 39 \/ q = 34) -> spellings_ok q l = true ->
  parseQuotedName (spell_name l ++ [q]) q 0
  = Some (string_of_runes (map snd l), List.length (spell_name l ++ [q])).
Proof.
  intros Hq Hok; unfold parseQuotedName.
  rewrite (pqn_spell q Hq (spell_name l ++ [q]) [] l); [| reflexivity | exact Hok |].
  - rewrite length_app; simpl; f_equal; f_equal; lia.
  - rewrite length_app; simpl; lia.
Qed.

Lemma Compile_spell (q : rune) (l : list (spelling * rune)) :
  (q = 39 \/ q = 34) -> spellings_ok q l = true ->
  Compile ([36; 91; q] ++ spell_name l ++ [q; 93])
  = CompileOk (mkCompiled [nameIndexer (string_of_runes (map snd l))]).
Proof.
  intros Hq Hok.
  pose proof (parseQuotedName_spell q l Hq Hok) as Hp.
  pose proof (Compile_render [(SegQuoted q (spell_name l ++ [q]), no_space)] []) as H.
  cbn [render_path render_segments segment_core no_space sp_a sp_b sp_c sp_d map fst
       segment_ast app] in H.
  rewrite Hp in H.
  rewrite <- H.
  - cbn [app]; rewrite app_nil_r, <- app_assoc; reflexivity.
  - constructor; [|constructor].
    split; [split; [exact Hq|exists (string_of_runes (map snd l)); exact Hp]|].
    repeat split; constructor.
  - constructor.
Qed.

(** ** Claims *)

(** C1 (code_bug): an escape outside the table is not a failure: [\z]
    compiles, to the name [z] (the backslash is dropped); and [\x+1], whose
    "hex digits" are [+1], is accepted by [strconv.ParseInt] and compiles to
    the name made of the code point 1. *)
Theorem unknown_escape_compiles :
  Compile (quoted_path (runes "\z")) = CompileOk (mkCompiled [nameIndexer (runes "z")])
  /\ Compile (quoted_path (runes "\x+1")) = CompileOk (mkCompiled [nameIndexer [1]]).
Proof. split; vm_compute; reflexivity. Qed.

(** C2 (code_bug): for every digit run [d], the path [$[-d]] does not
    compile: [parseNumber] accepts a leading minus only at position 0 of the
    whole path, which holds the root marker. *)
Theorem negative_index_rejected (d : list rune) :
  Compile (runes "$[-" ++ d ++ runes "]") = CompileErr CE_BadNumber.
Proof. reflexivity. Qed.

(** C3 (code_bug): compiling the empty path panics ([src[0]] on an empty
    slice) instead of returning an error. *)
Theorem compile_empty_panics : Compile (runes "") = CompilePanic.
Proof. reflexivity. Qed.

(** C4 (code_bug): against an array of length [L], a number indexer with a
    negative index [i] whose remapping [L - i] exceeds the int64 range wraps
    to [L - i - 2^64], which is negative: it passes the check
    [length <= idx], and [z[idx]] panics instead of the query failing with
    "index out of range". Such a step is built inside the package
    ([math.MinInt64] and its neighbours), since [Compile] never emits a
    negative index (C2). *)
Theorem negative_index_overflow_panics (xs : list value) (i : Z) :
  - 2 ^ 63 <= i < 0 -> Z.of_nat (List.length xs) < 2 ^ 63 ->
  2 ^ 63 <= Z.of_nat (List.length xs) - i ->
  wrap_int (Z.of_nat (List.length xs) - i) = Z.of_nat (List.length xs) - i - 2 ^ 64
  /\ Query (mkCompiled [numberIndexer i]) (mkParsed Type_Array (VSlice xs)) = QPanic.
Proof.
  intros Hi HL Hov.
  set (L := Z.of_nat (List.length xs)) in *.
  assert (Hw : wrap_int (L - i) = L - i - 2 ^ 64).
  { unfold wrap_int.
    replace (L - i + 2 ^ 63) with ((L - i + 2 ^ 63 - 2 ^ 64) + 1 * 2 ^ 64) by ring.
    rewrite Z.mod_add by lia.
    rewrite Z.mod_small by lia; lia. }
  split; [exact Hw|].
  cbn [Query pj_typ pj_value asts query_loop queryStep typ numberIndexer index].
  fold L.
  replace (i <? 0) with true by (symmetry; apply Z.ltb_lt; lia).
  rewrite Hw.
  replace (L <=? L - i - 2 ^ 64) with false by (symmetry; apply Z.leb_gt; lia).
  replace (L - i - 2 ^ 64 <? 0) with true by (symmetry; apply Z.ltb_lt; lia).
  reflexivity.
Qed.

Lemma negative_index_overflow_panics_witness :
  (- 2 ^ 63 <= - 2 ^ 63 + 1 < 0 /\ Z.of_nat (List.length [VNil; VNil]) < 2 ^ 63
   /\ 2 ^ 63 <= Z.of_nat (List.length [VNil; VNil]) - (- 2 ^ 63 + 1))
  /\ Query (mkCompiled [numberIndexer (- 2 ^ 63 + 1)]) (mkParsed Type_Array (VSlice [VNil; VNil]))
     = QPanic.
Proof.
  split; [simpl; lia|].
  apply (negative_index_overflow_panics [VNil; VNil] (- 2 ^ 63 + 1)); simpl; lia.
Defined.

(** C5: escape spellings are interchangeable. Whatever spelling is chosen
    for each code point of a quoted name (itself, a backslash and a letter
    of the table, [\xHH], [\uHHHH] not followed by a hex digit, or
    [\u{H..H}] with one to six digits), [$[qbodyq]] compiles to the single
    step naming those code points, so two spellings of the same code points
    compile to the same step. The four spellings of [abc] in [["abc"]],
    [["\x61\x62\x63"]], [["\u0061\u0062\u0063"]] and
    [["\u{61}\u{062}\u{0063}"]] are instances. *)
Theorem escape_spellings_same_step (q : rune) (l1 l2 : list (spelling * rune)) :
  (q = 39 \/ q = 34) -> spellings_ok q l1 = true -> spellings_ok q l2 = true ->
  map snd l1 = map snd l2 ->
  Compile ([36; 91; q] ++ spell_name l1 ++ [q; 93])
  = CompileOk (mkCompiled [nameIndexer (string_of_runes (map snd l1))])
  /\ Compile ([36; 91; q] ++ spell_name l2 ++ [q; 93])
     = Compile ([36; 91; q] ++ spell_name l1 ++ [q; 93]).
Proof.
  intros Hq H1 H2 Hs.
  rewrite (Compile_spell q l1 Hq H1), (Compile_spell q l2 Hq H2), Hs.
  split; reflexivity.
Qed.

Lemma escape_spellings_same_step_witness :
  Compile (quoted_path (runes "abc")) = CompileOk abc_steps
  /\ Compile (quoted_path (runes "\x61\x62\x63")) = CompileOk abc_steps
  /\ Compile (quoted_path (runes "\u0061\u0062\u0063")) = CompileOk abc_steps
  /\ Compile (quoted_path (runes "\u{61}\u{062}\u{0063}")) = CompileOk abc_steps.
Proof.
  pose proof (proj1 (escape_spellings_same_step 34 abc_plain abc_plain
                       (or_intror eq_refl) eq_refl eq_refl eq_refl)) as H0.
  change (Compile ([36; 91; 34] ++ spell_name abc_plain ++ [34; 93]) = CompileOk abc_steps) in H0.
  split; [exact H0|].
  split; [|split].
  - rewrite <- H0.
    exact (proj2 (escape_spellings_same_step 34 abc_plain [(SpHex2, 97); (SpHex2, 98); (SpHex2, 99)]
                    (or_intror eq_refl) eq_refl eq_refl eq_refl)).
  - rewrite <- H0.
    exact (proj2 (escape_spellings_same_step 34 abc_plain [(SpHex4, 97); (SpHex4, 98); (SpHex4, 99)]
                    (or_intror eq_refl) eq_refl eq_refl eq_refl)).
  - rewrite <- H0.
    exact (proj2 (escape_spellings_same_step 34 abc_plain
                    [(SpBraced 2, 97); (SpBraced 3, 98); (SpBraced 4, 99)]
                    (or_intror eq_refl) eq_refl eq_refl eq_refl)).
Defined.

(** C6: [$] compiles to zero steps, and zero steps return the root value,
    whatever it is, of every read document. *)
Theorem root_path_returns_root (pj : parsedJSON) :
  pj_typ pj <> Type_Invalid ->
  Compile (runes "$") = CompileOk (mkCompiled [])
  /\ Query (mkCompiled []) pj = QOk (pj_value pj).
Proof.
  intros H; split; [reflexivity|].
  unfold Query; simpl; destruct (pj_typ pj); [congruence|..]; reflexivity.
Qed.

Lemma root_path_returns_root_witness :
  Compile (runes "$") = CompileOk (mkCompiled [])
  /\ Query (mkCompiled []) (mkParsed Type_Null VNil) = QOk VNil.
Proof.
  apply (root_path_returns_root (mkParsed Type_Null VNil)); simpl; discriminate.
Defined.

(** C7: for a path that compiles and any document, the accessors never
    panic: [QueryAsStringOrZero] returns the result when it is a string and
    [""] otherwise, [QueryAsNumberOrZero] returns the result when it is a
    float64 number and [0] otherwise, and both give their zero value when
    the query fails; [$.c] against [{"a":{"b":1}}] fails, and the accessors
    give [0] and [""]. *)
Theorem accessors_total (path : list rune) (p : CompiledJSONPath) (pj : parsedJSON) :
  Compile path = CompileOk p ->
  (forall s, Query p pj = QOk (VString s) -> QueryAsStringOrZero p pj = Ret s)
  /\ ((forall s, Query p pj <> QOk (VString s)) -> QueryAsStringOrZero p pj = Ret [])
  /\ (forall f, Query p pj = QOk (VFloat64 f) -> QueryAsNumberOrZero p pj = Ret f)
  /\ ((forall f, Query p pj <> QOk (VFloat64 f)) -> QueryAsNumberOrZero p pj = Ret 0%float)
  /\ (forall e, Query p pj = QErr e ->
        QueryAsStringOrZero p pj = Ret [] /\ QueryAsNumberOrZero p pj = Ret 0%float)
  /\ (exists pc, Compile (runes "$.c") = CompileOk pc
        /\ Query pc doc_a_b = QErr QE_PropertyDoesNotExist
        /\ QueryAsNumberOrZero pc doc_a_b = Ret 0%float
        /\ QueryAsStringOrZero pc doc_a_b = Ret []).
Proof.
  intros Hc.
  assert (Hnp : Query p pj <> QPanic).
  { unfold Query; destruct (pj_typ pj); try discriminate;
      apply query_loop_no_panic, Compile_nonneg with (path := path), Hc. }
  unfold QueryAsStringOrZero, QueryAsNumberOrZero.
  split; [|split; [|split; [|split; [|split]]]].
  - intros s ->; reflexivity.
  - intros Hn; destruct (Query p pj) as [v| |]; [destruct v| |congruence];
      try reflexivity; exfalso; eapply Hn; reflexivity.
  - intros f ->; reflexivity.
  - intros Hn; destruct (Query p pj) as [v| |]; [destruct v| |congruence];
      try reflexivity; exfalso; eapply Hn; reflexivity.
  - intros e ->; split; reflexivity.
  - eexists; split; [vm_compute; reflexivity|].
    split; [|split]; vm_compute; reflexivity.
Qed.

Lemma accessors_total_witness :
  QueryAsNumberOrZero (mkCompiled [nameIndexer (runes "a"); nameIndexer (runes "b")]) doc_a_b
    = Ret 1%float
  /\ QueryAsStringOrZero (mkCompiled [nameIndexer (runes "a"); nameIndexer (runes "b")]) doc_a_b
    = Ret []
  /\ QueryAsStringOrZero (mkCompiled [nameIndexer (runes "s")]) doc_s = Ret (runes "x")
  /\ QueryAsStringOrZero (mkCompiled [nameIndexer (runes "c")]) doc_a_b = Ret []
  /\ QueryAsNumberOrZero (mkCompiled [nameIndexer (runes "c")]) doc_a_b = Ret 0%float.
Proof.
  destruct (accessors_total (runes "$.a.b")
              (mkCompiled [nameIndexer (runes "a"); nameIndexer (runes "b")]) doc_a_b)
    as [_ [Hs [Hn [_ _]]]]; [vm_compute; reflexivity|].
  destruct (accessors_total (runes "$.s") (mkCompiled [nameIndexer (runes "s")]) doc_s)
    as [Hs' _]; [vm_compute; reflexivity|].
  destruct (accessors_total (runes "$.c") (mkCompiled [nameIndexer (runes "c")]) doc_a_b)
    as [_ [_ [_ [_ [He _]]]]]; [vm_compute; reflexivity|].
  split; [apply Hn; vm_compute; reflexivity|].
  split; [apply Hs; vm_compute; discriminate|].
  split; [apply Hs'; vm_compute; reflexivity|].
  apply (He QE_PropertyDoesNotExist); vm_compute; reflexivity.
Defined.

(** C8: once a query reaches an empty array, [(first)] and [(last)] fail
    with "index out of range" and [(length)] returns [0]. *)
Theorem empty_array_functions (pre : list ast) (pj : parsedJSON) :
  Query (mkCompiled pre) pj = QOk (VSlice []) ->
  Query (mkCompiled (pre ++ [functionAst (runes "first")])) pj = QErr QE_IndexOutOfRange
  /\ Query (mkCompiled (pre ++ [functionAst (runes "last")])) pj = QErr QE_IndexOutOfRange
  /\ Query (mkCompiled (pre ++ [functionAst (runes "length")])) pj = QOk (VInt 0).
Proof.
  intros H; rewrite !Query_app, H; repeat split; reflexivity.
Qed.

Lemma empty_array_functions_witness :
  Query (mkCompiled [nameIndexer (runes "a")]) doc_empty_array = QOk (VSlice [])
  /\ Query (mkCompiled [nameIndexer (runes "a"); functionAst (runes "first")])
       doc_empty_array = QErr QE_IndexOutOfRange.
Proof.
  split; [vm_compute; reflexivity|].
  apply (empty_array_functions [nameIndexer (runes "a")] doc_empty_array).
  vm_compute; reflexivity.
Defined.

(** C9 (corrected), counterexample: whitespace before [$] is not tolerated;
    [" $"] fails to compile while [$] compiles. *)
Lemma whitespace_before_root_rejected :
  Compile (runes " $") = CompileErr CE_NotStartsWithRoot
  /\ Compile (runes "$") = CompileOk (mkCompiled []).
Proof. split; reflexivity. Qed.

(** C9 (corrected): two renderings of the same valid segments, differing
    only in the whitespace after [$], around each [.], inside each [[...]]
    and [(...)], and at the end, both compile, and to the same steps. *)
Theorem whitespace_insensitive (p1 p2 : list (segment * spacing)) (t1 t2 : list rune) :
  segs_ok p1 -> segs_ok p2 -> map fst p1 = map fst p2 -> ws_run t1 -> ws_run t2 ->
  exists c, Compile (render_path p1 t1) = CompileOk c
            /\ Compile (render_path p2 t2) = CompileOk c.
Proof.
  intros H1 H2 Hm Ht1 Ht2.
  exists (mkCompiled (map (fun x => segment_ast (fst x)) p1)).
  rewrite !Compile_render by assumption.
  split; [reflexivity|].
  replace (map (fun x => segment_ast (fst x)) p1) with (map segment_ast (map fst p1))
    by (rewrite map_map; reflexivity).
  rewrite Hm, map_map; reflexivity.
Qed.

Lemma whitespace_insensitive_witness :
  render_path (test_1_abc no_space) [] = runes "$.test[1].abc"
  /\ render_path (test_1_abc one_space) [32] = runes "$ . test [ 1 ] . abc "
  /\ exists c, Compile (render_path (test_1_abc no_space) []) = CompileOk c
               /\ Compile (render_path (test_1_abc one_space) [32]) = CompileOk c.
Proof.
  split; [vm_compute; reflexivity|].
  split; [vm_compute; reflexivity|].
  apply whitespace_insensitive; [| |reflexivity|constructor|repeat constructor];
    unfold segs_ok, test_1_abc;
    repeat constructor; try discriminate; vm_compute; reflexivity.
Defined.

(** C10: [(length)] on an array yields a Go [int], not a [float64]: the
    query succeeds with the element count while [QueryAsNumberOrZero]
    returns [0]. *)
Theorem length_not_a_number (pre : list ast) (pj : parsedJSON) (xs : list value) :
  Query (mkCompiled pre) pj = QOk (VSlice xs) ->
  Query (mkCompiled (pre ++ [functionAst (runes "length")])) pj
    = QOk (VInt (Z.of_nat (List.length xs)))
  /\ QueryAsNumberOrZero (mkCompiled (pre ++ [functionAst (runes "length")])) pj
    = Ret 0%float.
Proof.
  intros H.
  assert (Hq : Query (mkCompiled (pre ++ [functionAst (runes "length")])) pj
               = QOk (VInt (Z.of_nat (List.length xs))))
    by (rewrite Query_app, H; reflexivity).
  split; [exact Hq|].
  unfold QueryAsNumberOrZero; rewrite Hq; reflexivity.
Qed.

Lemma length_not_a_number_witness :
  Compile (runes "$.test.(length)")
    = CompileOk (mkCompiled [nameIndexer (runes "test"); functionAst (runes "length")])
  /\ Query (mkCompiled [nameIndexer (runes "test"); functionAst (runes "length")]) doc_test
     = QOk (VInt 2)
  /\ QueryAsNumberOrZero
       (mkCompiled [nameIndexer (runes "test"); functionAst (runes "length")]) doc_test
     = Ret 0%float.
Proof.
  split; [vm_compute; reflexivity|].
  destruct (length_not_a_number [nameIndexer (runes "test")] doc_test
              [VMap [(runes "abc", VFloat64 1%float)]; VMap [(runes "abc", VFloat64 10%float)]])
    as [H1 H2]; [vm_compute; reflexivity|].
  split; [exact H1|exact H2].
Defined.

(** ** Further properties of the code *)

(** X3: every document that [ReadString] returns has a valid type and a root
    value of the shape that type names, and [Query] never reports it as not
    read. *)
Theorem ReadString_result_shape uo ua us un (src : gostring) (p : parsedJSON) :
  ReadString uo ua us un src = ReadOk p ->
  pj_typ p <> Type_Invalid /\ shape_ok p
  /\ forall path, Query path p <> QErr QE_NotRead.
Proof.
  intros H.
  assert (Hs : pj_typ p <> Type_Invalid /\ shape_ok p).
  { unfold ReadString in H; destruct src as [|c s]; [discriminate|].
    repeat match goal with
    | H : context [if ?b then _ else _] |- _ => destruct b
    | H : context [match ?x with Some _ => _ | None => _ end] |- _ => destruct x
    end; try discriminate; injection H as <-; split; try discriminate; exact I. }
  split; [exact (proj1 Hs)|split; [exact (proj2 Hs)|]].
  intros path; unfold Query.
  destruct (pj_typ p); [exfalso; apply (proj1 Hs); reflexivity|..];
    apply query_loop_not_NotRead.
Qed.

Lemma ReadString_result_shape_witness :
  ReadString (fun _ => None) (fun _ => Some [VNil]) (fun _ => None) (fun _ => None) (runes "[null]")
  = ReadOk (mkParsed Type_Array (VSlice [VNil]))
  /\ shape_ok (mkParsed Type_Array (VSlice [VNil])).
Proof.
  assert (H : ReadString (fun _ => None) (fun _ => Some [VNil]) (fun _ => None) (fun _ => None)
                (runes "[null]") = ReadOk (mkParsed Type_Array (VSlice [VNil])))
    by reflexivity.
  split; [exact H|].
  exact (proj1 (proj2 (ReadString_result_shape _ _ _ _ _ _ H))).
Defined.


(** X5: a step after a path that ends on nil fails with Nil referenced; a
    step after a path that ends on a scalar fails with an unexpected data
    type. *)
Theorem Query_past_leaf (p rest : list ast) (a : ast) (pj : parsedJSON) (v : value) :
  Query (mkCompiled p) pj = QOk v ->
  (v = VNil -> Query (mkCompiled (p ++ a :: rest)) pj = QErr QE_NilReferenced)
  /\ (is_scalar v = true ->
      Query (mkCompiled (p ++ a :: rest)) pj = QErr QE_UnexpectedDataType).
Proof.
  intros H; rewrite !Query_app, H; simpl.
  split; [intros ->; reflexivity|].
  destruct v; simpl; try discriminate; reflexivity.
Qed.

Lemma Query_past_leaf_witness :
  Query (mkCompiled ([nameIndexer (runes "a")] ++ [nameIndexer (runes "b")]))
    (mkParsed Type_Object (VMap [(runes "a", VNil)]))
  = QErr QE_NilReferenced.
Proof.
  apply (proj1 (Query_past_leaf [nameIndexer (runes "a")] [] (nameIndexer (runes "b"))
                  (mkParsed Type_Object (VMap [(runes "a", VNil)])) VNil
                  ltac:(vm_compute; reflexivity))).
  reflexivity.
Defined.

(** X6: a non-negative number step on an array gives the element at that
    index, or Index out of range from the length on. *)
Theorem Query_array_index (p : list ast) (pj : parsedJSON) (xs : list value) (k : Z) :
  Query (mkCompiled p) pj = QOk (VSlice xs) -> 0 <= k ->
  Query (mkCompiled (p ++ [numberIndexer k])) pj
  = if k <? Z.of_nat (List.length xs) then QOk (nth (Z.to_nat k) xs VNil)
    else QErr QE_IndexOutOfRange.
Proof.
  intros H Hk; rewrite Query_app, H; simpl.
  replace (k <? 0) with false by (symmetry; apply Z.ltb_ge; lia).
  destruct (k <? Z.of_nat (List.length xs)) eqn:E.
  - apply Z.ltb_lt in E.
    replace (Z.of_nat (List.length xs) <=? k) with false by (symmetry; apply Z.leb_gt; lia).
    replace (k <? 0) with false by (symmetry; apply Z.ltb_ge; lia); reflexivity.
  - apply Z.ltb_ge in E.
    replace (Z.of_nat (List.length xs) <=? k) with true by (symmetry; apply Z.leb_le; lia).
    reflexivity.
Qed.

Lemma Query_array_index_witness :
  Query (mkCompiled ([] ++ [numberIndexer 1]))
    (mkParsed Type_Array (VSlice [VString (runes "x")]))
  = QErr QE_IndexOutOfRange.
Proof.
  rewrite (Query_array_index [] (mkParsed Type_Array (VSlice [VString (runes "x")]))
             [VString (runes "x")] 1) by (first [reflexivity | lia]).
  reflexivity.
Defined.

(** X7: on a non-empty array, [(first)], [(last)] and [(length)] give its
    first element, its last element and its length. *)
Theorem Query_array_first_last (p : list ast) (pj : parsedJSON) (x : value) (xs : list value) :
  Query (mkCompiled p) pj = QOk (VSlice (x :: xs)) ->
  Query (mkCompiled (p ++ [functionAst (runes "first")])) pj = QOk x
  /\ Query (mkCompiled (p ++ [functionAst (runes "last")])) pj = QOk (last (x :: xs) VNil)
  /\ Query (mkCompiled (p ++ [functionAst (runes "length")])) pj
     = QOk (VInt (Z.of_nat (S (List.length xs)))).
Proof.
  intros H; rewrite !Query_app, H; cbv beta iota.
  split; [reflexivity|split; [|reflexivity]].
  change (query_loop [functionAst (runes "last")] (VSlice (x :: xs)))
    with (QOk (nth (Z.to_nat (Z.of_nat (List.length (x :: xs)) - 1)) (x :: xs) VNil)).
  replace (Z.to_nat (Z.of_nat (List.length (x :: xs)) - 1)) with (List.length xs)
    by (simpl List.length; lia).
  f_equal; clear H; revert x; induction xs as [|y xs IH]; intro x; [reflexivity|].
  change (nth (List.length (y :: xs)) (x :: y :: xs) VNil)
    with (nth (List.length xs) (y :: xs) VNil).
  rewrite IH; reflexivity.
Qed.

Lemma Query_array_first_last_witness :
  Query (mkCompiled ([] ++ [functionAst (runes "last")]))
    (mkParsed Type_Array (VSlice [VBool true; VBool false]))
  = QOk (VBool false).
Proof.
  exact (proj1 (proj2 (Query_array_first_last []
                         (mkParsed Type_Array (VSlice [VBool true; VBool false]))
                         (VBool true) [VBool false] eq_refl))).
Defined.

(** X8: [skipSpaces] returns the first position from [start] on that is
    neither a space nor a control character, or the length when there is
    none; from past the end it returns the length. *)
Theorem skipSpaces_first_non_space (src : list rune) (start : nat) :
  ((start <= List.length src)%nat ->
   let k := skipSpaces src start in
   (start <= k <= List.length src)%nat
   /\ (forall j, (start <= j < k)%nat -> is_ws (nth j src 0) = true)
   /\ ((k < List.length src)%nat -> is_ws (nth k src 0) = false))
  /\ ((List.length src < start)%nat -> skipSpaces src start = List.length src).
Proof.
  split.
  - intros Hs; cbv zeta; unfold skipSpaces.
    pose proof (skipSpaces_loop_spec (skipn start src) start) as H.
    rewrite length_skipn in H.
    destruct (skipSpaces_loop (skipn start src) start) as [k|].
    + destruct H as [H1 [H2 H3]].
      rewrite nth_skipn in H3.
      split; [lia|split].
      * intros j Hj; specialize (H2 j Hj); rewrite nth_skipn in H2.
        replace (start + (j - start))%nat with j in H2 by lia; exact H2.
      * intros _; replace (start + (k - start))%nat with k in H3 by lia; exact H3.
    + split; [lia|split; [|lia]].
      intros j Hj; specialize (H (j - start)%nat ltac:(lia)).
      rewrite nth_skipn in H; replace (start + (j - start))%nat with j in H by lia; exact H.
  - intros Hs; unfold skipSpaces.
    rewrite skipn_all2 by lia; reflexivity.
Qed.

(** X9: [parseBareName] reads the longest run of bare-name characters at
    [start], fails when there is none, and returns the run with the position
    after it. *)
Theorem parseBareName_maximal_run (src : list rune) (start : nat) :
  match parseBareName src start with
  | Some (nm, e) =>
      (start < e <= List.length src)%nat
      /\ (forall j, (start <= j < e)%nat -> bare_char (nth j src 0) = true)
      /\ ((e < List.length src)%nat -> bare_char (nth e src 0) = false)
      /\ nm = string_of_runes (slice src start e)
  | None => (List.length src <= start)%nat \/ bare_char (nth start src 0) = false
  end.
Proof.
  unfold parseBareName.
  destruct (parseBareName_loop_split (skipn start src) start []) as [t [r [H1 [H2 [H3 H4]]]]].
  rewrite H4; simpl.
  destruct (Nat.le_gt_cases start (List.length src)) as [Hle|Hgt].
  2:{ rewrite skipn_all2 in H1 by lia; destruct t; [left; lia|discriminate]. }
  destruct (skipn_app_at _ _ _ _ H1 Hle) as [Hs Hl].
  destruct t as [|c t'].
  - simpl in Hs; rewrite Nat.add_0_r in Hs.
    destruct r as [|c r].
    + left; pose proof (f_equal (@List.length rune) H1) as HL;
        rewrite length_skipn in HL; simpl in HL; lia.
    + right; destruct (skipn_cons_at _ _ _ _ H1) as [Hn _]; rewrite Hn; exact H3.
  - split; [simpl in Hl |- *; lia|split; [|split]].
    + intros j Hj.
      pose proof (nth_skipn start src (j - start) 0) as E; rewrite H1 in E.
      replace (start + (j - start))%nat with j in E by lia; rewrite <- E.
      rewrite app_nth1 by (simpl in Hj |- *; lia).
      apply (proj1 (Forall_forall _ _) H2), nth_In; simpl in Hj |- *; lia.
    + intros Hlt; destruct r as [|d r].
      * pose proof (f_equal (@List.length rune) Hs) as HL;
          rewrite length_skipn in HL; simpl in *; lia.
      * destruct (skipn_cons_at _ _ _ _ Hs) as [Hn _]; rewrite Hn; exact H3.
    + rewrite (slice_at src (c :: t') r start H1); reflexivity.
Qed.

(** X10: a bracketed quoted name whose closing quote never comes is
    rejected: after any path [$a] that compiles, [[], optional whitespace, a
    quote [q] and a body in which every backslash takes the next code point
    and no unescaped [q] occurs make the path fail with the bad quoted name
    error. *)
Theorem Compile_unterminated_quote (a ws body : list rune) (p : CompiledJSONPath) (q : rune) :
  Compile (36 :: a) = CompileOk p -> ws_run ws -> (q = 39 \/ q = 34) ->
  unclosed q body = true ->
  Compile (36 :: a ++ 91 :: ws ++ q :: body) = CompileErr CE_BadQuotedName.
Proof.
  intros Ha Hw Hq Hu; destruct p as [r].
  rewrite Compile_cons_root in Ha |- *.
  change (36 :: a ++ 91 :: ws ++ q :: body) with ((36 :: a) ++ 91 :: ws ++ q :: body).
  set (A := (36 :: a : list rune)) in *; set (b := (91 :: ws ++ q :: body : list rune)).
  assert (HL : List.length (A ++ b) = (List.length A + S (List.length ws + S (List.length body)))%nat)
    by (subst b; rewrite !length_app; simpl; rewrite length_app; simpl; lia).
  transitivity (compileCore_loop (S (List.length b)) (A ++ b) (List.length A) r).
  { apply (prefix_run A b eq_refl (S (List.length a)) 1 [] r);
      [subst A; simpl; lia|exact Ha|..];
      subst A b; simpl; rewrite ?length_app; simpl; rewrite ?length_app; simpl; lia. }
  assert (H0 : skipn (List.length A) (A ++ b) = b)
    by (rewrite skipn_app, skipn_all, Nat.sub_diag; reflexivity).
  destruct (skipn_cons_at _ _ _ _ H0) as [Hn0 [H1 Hlt0]].
  assert (Hsk : skipSpaces (A ++ b) (List.length A + 1) = (List.length A + 1 + List.length ws)%nat).
  { apply skipSpaces_at with (r := q :: body); [rewrite Nat.add_1_r; exact H1|lia|exact Hw|].
    destruct Hq as [-> | ->]; reflexivity. }
  rewrite <- Nat.add_1_r in H1.
  destruct (skipn_app_at _ _ _ _ H1 ltac:(lia)) as [H2 _].
  destruct (skipn_cons_at _ _ _ _ H2) as [Hn2 [H3 _]].
  cbn [compileCore_loop]; cbv zeta.
  destruct (Nat.ltb_spec (List.length A) (List.length (A ++ b))); [|lia].
  rewrite Hn0; change (IsSpace 91 || IsControl 91) with false; change (91 =? 91) with true.
  cbv iota beta; rewrite Hsk.
  replace (Nat.eqb (List.length A + 1 + List.length ws) (List.length (A ++ b))) with false
    by (symmetry; apply Nat.eqb_neq; lia).
  rewrite Hn2.
  unfold parseQuotedName; rewrite pqn_unclosed;
    [|exact Hq|rewrite <- Nat.add_1_r in H3; rewrite H3; exact Hu].
  destruct Hq as [-> | ->]; reflexivity.
Qed.

Lemma Compile_unterminated_quote_witness :
  Compile (36 :: runes ".a" ++ 91 :: [32] ++ 39 :: runes "b\'c") = CompileErr CE_BadQuotedName
  /\ Compile (36 :: [] ++ 91 :: [] ++ 34 :: runes "x\") = CompileErr CE_BadQuotedName.
Proof.
  split.
  - apply (Compile_unterminated_quote (runes ".a") [32] (runes "b\'c")
             (mkCompiled [nameIndexer (runes "a")]) 39);
      [vm_compute; reflexivity|repeat constructor|left; reflexivity|vm_compute; reflexivity].
  - apply (Compile_unterminated_quote [] [] (runes "x\") (mkCompiled []) 34);
      [vm_compute; reflexivity|constructor|right; reflexivity|vm_compute; reflexivity].
Defined.

(** X11: a name written between quotes with [quoteName] compiles back to the
    step for exactly that name, and that step looks the name up in an
    object. *)
Theorem Compile_quoted_roundtrip (q : rune) (n : list rune) :
  (q = 39 \/ q = 34) ->
  Compile ([36; 91; q] ++ quoteName q n ++ [q; 93])
  = CompileOk (mkCompiled [nameIndexer (string_of_runes n)])
  /\ forall kvs,
     Query (mkCompiled [nameIndexer (string_of_runes n)]) (mkParsed Type_Object (VMap kvs))
     = match lookup (string_of_runes n) kvs with
       | Some v => QOk v
       | None => QErr QE_PropertyDoesNotExist
       end.
Proof.
  intros Hq.
  assert (Hp : parseQuotedName (quoteName q n ++ [q]) q 0
               = Some (string_of_runes n, List.length (quoteName q n ++ [q]))).
  { unfold parseQuotedName.
    rewrite (parseQuotedName_loop_quoteName q _ [] n Hq); [|reflexivity|].
    - rewrite length_app; reflexivity.
    - rewrite length_app; simpl; lia. }
  split; [|intros kvs; cbn; destruct (lookup (string_of_runes n) kvs); reflexivity].
  pose proof (Compile_render [(SegQuoted q (quoteName q n ++ [q]), no_space)] []) as H.
  cbn [render_path render_segments segment_core no_space sp_a sp_b sp_c sp_d map fst
       segment_ast app] in H.
  rewrite Hp in H.
  rewrite <- H.
  - cbn [app]; rewrite app_nil_r, <- app_assoc; reflexivity.
  - constructor; [|constructor].
    split; [split; [exact Hq|exists (string_of_runes n); exact Hp]|].
    repeat split; constructor.
  - constructor.
Qed.

Lemma Compile_quoted_roundtrip_witness :
  Compile ([36; 91; 34] ++ quoteName 34 [97; 34] ++ [34; 93])
  = CompileOk (mkCompiled [nameIndexer (string_of_runes [97; 34])]).
Proof.
  exact (proj1 (Compile_quoted_roundtrip 34 [97; 34] (or_intror eq_refl))).
Defined.

(** X12: [Compile] is compositional. For any code-point sequences [a] and
    [b] (each may be empty or whitespace only, and then stands for no step):
    when [$] followed by [a] compiles to the steps [s1] and [$] followed by
    [b] compiles to the steps [s2], then [$] followed by [a] and then [b]
    compiles to [s1 ++ s2]. *)
Theorem Compile_concat (a b : list rune) (s1 s2 : list ast) :
  Compile (36 :: a) = CompileOk (mkCompiled s1) ->
  Compile (36 :: b) = CompileOk (mkCompiled s2) ->
  Compile (36 :: a ++ b) = CompileOk (mkCompiled (s1 ++ s2)).
Proof.
  intros Ha Hb.
  pose proof (Compile_head_not_bare b _ Hb) as Hh.
  rewrite Compile_cons_root in Ha, Hb |- *.
  change (36 :: a ++ b) with ((36 :: a) ++ b).
  transitivity (compileCore_loop (S (List.length b)) ((36 :: a) ++ b) (List.length (36 :: a)) s1).
  { apply (prefix_run (36 :: a) b Hh (S (List.length a)) 1 [] s1);
      [simpl; lia|exact Ha|rewrite !length_app; simpl; lia|rewrite !length_app; simpl; lia]. }
  assert (Hxy : skipn 1 (36 :: b) = skipn (List.length (36 :: a)) ((36 :: a) ++ b))
    by (rewrite skipn_app, skipn_all, Nat.sub_diag; reflexivity).
  pose proof (off_compileCore_loop (36 :: b) ((36 :: a) ++ b) 1 (List.length (36 :: a))
                Hxy ltac:(simpl; lia) ltac:(rewrite length_app; simpl; lia)
                (S (List.length b)) 0 s1) as E.
  rewrite !Nat.add_0_r in E; rewrite <- E.
  pose proof (compileCore_loop_acc (36 :: b) (S (List.length b)) 1 s1 []) as E2.
  rewrite app_nil_r, Hb in E2; exact E2.
Qed.

Lemma Compile_concat_witness :
  (Compile (36 :: runes ".a ") = CompileOk (mkCompiled [nameIndexer (runes "a")])
   /\ Compile (36 :: runes " [0]") = CompileOk (mkCompiled [numberIndexer 0])
   /\ Compile (36 :: runes ".a " ++ runes " [0]")
      = CompileOk (mkCompiled ([nameIndexer (runes "a")] ++ [numberIndexer 0])))
  /\ (Compile (36 :: runes " ") = CompileOk (mkCompiled [])
      /\ Compile (36 :: runes ".x" ++ runes " ")
         = CompileOk (mkCompiled ([nameIndexer (runes "x")] ++ [])))
  /\ (Compile (36 :: []) = CompileOk (mkCompiled [])
      /\ Compile (36 :: [] ++ runes ".x")
         = CompileOk (mkCompiled ([] ++ [nameIndexer (runes "x")]))).
Proof.
  assert (H1 : Compile (36 :: runes ".a ") = CompileOk (mkCompiled [nameIndexer (runes "a")]))
    by (vm_compute; reflexivity).
  assert (H2 : Compile (36 :: runes " [0]") = CompileOk (mkCompiled [numberIndexer 0]))
    by (vm_compute; reflexivity).
  assert (H3 : Compile (36 :: runes ".x") = CompileOk (mkCompiled [nameIndexer (runes "x")]))
    by (vm_compute; reflexivity).
  assert (H4 : Compile (36 :: runes " ") = CompileOk (mkCompiled [])) by (vm_compute; reflexivity).
  assert (H5 : Compile (36 :: []) = CompileOk (mkCompiled [])) by (vm_compute; reflexivity).
  split; [split; [exact H1|split; [exact H2|]]|split; [split; [exact H4|]|split; [exact H5|]]].
  - exact (Compile_concat _ _ _ _ H1 H2).
  - exact (Compile_concat _ _ _ _ H3 H4).
  - exact (Compile_concat _ _ _ _ H5 H3).
Defined.

(** X14: against an array of length [L], a number indexer with a negative
    index [i] such that [L - i] fits in an int64 is remapped to [L - i],
    which is at least [L + 1], and the step fails with "index out of
    range". *)
Theorem negative_index_out_of_range (xs : list value) (a : ast) :
  typ a = astType_NumberIndexer -> index a < 0 ->
  Z.of_nat (List.length xs) - index a <= 2 ^ 63 - 1 ->
  wrap_int (Z.of_nat (List.length xs) - index a) = Z.of_nat (List.length xs) - index a
  /\ Z.of_nat (List.length xs) + 1 <= Z.of_nat (List.length xs) - index a
  /\ queryStep (VSlice xs) a = QErr QE_IndexOutOfRange.
Proof.
  intros Ht Hneg Hfit.
  assert (Hw : wrap_int (Z.of_nat (List.length xs) - index a)
               = Z.of_nat (List.length xs) - index a).
  { unfold wrap_int.
    rewrite Z.mod_small by lia; lia. }
  split; [exact Hw|split; [lia|]].
  unfold queryStep; rewrite Ht.
  replace (index a <? 0) with true by (symmetry; apply Z.ltb_lt; exact Hneg).
  rewrite Hw.
  replace (Z.of_nat (List.length xs) <=? Z.of_nat (List.length xs) - index a)
    with true by (symmetry; apply Z.leb_le; lia).
  reflexivity.
Qed.

Lemma negative_index_out_of_range_witness :
  (typ (numberIndexer (-1)) = astType_NumberIndexer /\ index (numberIndexer (-1)) < 0
   /\ Z.of_nat (List.length [VNil; VNil]) - index (numberIndexer (-1)) <= 2 ^ 63 - 1)
  /\ queryStep (VSlice [VNil; VNil]) (numberIndexer (-1)) = QErr QE_IndexOutOfRange.
Proof.
  split; [split; [reflexivity|split; vm_compute; congruence]|].
  apply (negative_index_out_of_range [VNil; VNil] (numberIndexer (-1)));
    [reflexivity|vm_compute; reflexivity|vm_compute; congruence].
Defined.
